(** * WebGL2 solar-system demo: matrix library, camera, geometry and
      redraw scheduler of [main.js]

    JavaScript numbers are modelled as real numbers ([R]): [Math.cos],
    [Math.sin], [Math.tan], [Math.PI], [Math.max] and [Math.min] are the
    functions [cos], [sin], [tan], [PI], [Rmax] and [Rmin] of the standard
    library.  Rounding (binary64 arithmetic, binary32 storage in a
    [Float32Array]) and the non-finite values are outside this model.

    A [Float32Array] is a [list R] read with [m !!! i] and written with
    [<[i:=v]> m]; every index used by the source is below the length of
    the array it is applied to, so the out-of-range behaviour of either
    side is never exercised. *)

From Stdlib Require Import Reals Lra Lia ZArith List.
From stdpp Require Import base list strings gmap.
Import ListNotations.

#[global] Instance R_inhabited : Inhabited R := populate 0%R.

(** [for (let i=0;i<n;i++) body(i)] threading the array being filled. *)
Definition for_lt {S : Type} (n : nat) (body : nat -> S -> S) (s : S) : S :=
  fold_left (fun acc i => body i acc) (seq 0 n) s.

(** ** Minimal mat4 (column-major; column vectors) *)

Module Mat4.
Local Open Scope R_scope.

(** [new Float32Array(16)]: sixteen zeros. *)
Definition Float32Array (n : nat) : list R := replicate n 0.

(** [const idx4 = (r,c)=>c*4+r]. *)
Definition idx4 (r c : nat) : nat := (c * 4 + r)%nat.

Definition mat4Identity : list R :=
  let m := Float32Array 16 in
  let m := <[0%nat := 1]> m in
  let m := <[5%nat := 1]> m in
  let m := <[10%nat := 1]> m in
  let m := <[15%nat := 1]> m in
  m.

(** The body of the two nested loops of [mat4Mul]: one assignment
    [o[idx4(r,c)] = ...]. *)
Definition mat4Mul_cell (B A : list R) (r c : nat) (o : list R) : list R :=
  <[idx4 r c :=
      B !!! idx4 r 0 * A !!! idx4 0 c +
      B !!! idx4 r 1 * A !!! idx4 1 c +
      B !!! idx4 r 2 * A !!! idx4 2 c +
      B !!! idx4 r 3 * A !!! idx4 3 c]> o.

(** [mat4Mul(B, A)]: out = B * A. *)
Definition mat4Mul (B A : list R) : list R :=
  let o := Float32Array 16 in
  for_lt 4 (fun r o => for_lt 4 (fun c o => mat4Mul_cell B A r c o) o) o.

Definition mat4Translate (tx ty tz : R) : list R :=
  let m := mat4Identity in
  let m := <[12%nat := tx]> m in
  let m := <[13%nat := ty]> m in
  let m := <[14%nat := tz]> m in
  m.

Definition mat4Scale (sx sy sz : R) : list R :=
  let m := mat4Identity in
  let m := <[0%nat := sx]> m in
  let m := <[5%nat := sy]> m in
  let m := <[10%nat := sz]> m in
  m.

Definition mat4RotateZ (a : R) : list R :=
  let c := cos a in
  let s := sin a in
  let m := mat4Identity in
  let m := <[0%nat := c]> m in
  let m := <[4%nat := - s]> m in
  let m := <[1%nat := s]> m in
  let m := <[5%nat := c]> m in
  m.

Definition mat4TRS (tx ty tz angZ sx sy sz : R) : list R :=
  mat4Mul (mat4Translate tx ty tz)
          (mat4Mul (mat4RotateZ angZ) (mat4Scale sx sy sz)).

(** Perspective (right-handed, clip z in [-1,+1]). *)
Definition mat4Perspective (fovDeg aspect near far : R) : list R :=
  let fov := fovDeg * PI / 180 in
  let f := 1 / tan (fov / 2) in
  let nf := 1 / (near - far) in
  let m := Float32Array 16 in
  let m := <[0%nat := f / aspect]> m in
  let m := <[5%nat := f]> m in
  let m := <[10%nat := (far + near) * nf]> m in
  let m := <[11%nat := -1]> m in
  let m := <[14%nat := (2 * far * near) * nf]> m in
  m.

(** Orthographic (right-handed, clip z in [-1,+1]). *)
Definition mat4Ortho (l r b t n f : R) : list R :=
  let m := Float32Array 16 in
  let m := <[0%nat := 2 / (r - l)]> m in
  let m := <[5%nat := 2 / (t - b)]> m in
  let m := <[10%nat := -2 / (f - n)]> m in
  let m := <[12%nat := - (r + l) / (r - l)]> m in
  let m := <[13%nat := - (t + b) / (t - b)]> m in
  let m := <[14%nat := - (f + n) / (f - n)]> m in
  let m := <[15%nat := 1]> m in
  m.

(** View: camera at (cx,cy,cz), yaw around Z; the inverse of the camera
    transform, rotate(-angZ) then translate(-pos). *)
Definition mat4View (cx cy cz angZ : R) : list R :=
  mat4Mul (mat4RotateZ (- angZ)) (mat4Translate (- cx) (- cy) (- cz)).

(** The vertex shader's [uViewProj * world]: GLSL's product of a [mat4]
    (column-major) with a [vec4], component [r] being the sum over the
    columns [c] of [M[idx4(r,c)] * v[c]]. *)
Definition mat4MulVec (M v : list R) : list R :=
  map (fun r =>
         M !!! idx4 r 0 * v !!! 0%nat +
         M !!! idx4 r 1 * v !!! 1%nat +
         M !!! idx4 r 2 * v !!! 2%nat +
         M !!! idx4 r 3 * v !!! 3%nat) (seq 0 4).

(** Every array the library hands out has sixteen entries. *)
Definition is_mat4 (M : list R) : Prop := length M = 16%nat.

End Mat4.

(** ** Application state, browser and GL context *)

Inductive Mode := ortho | persp.

(** A draw descriptor, the object [makeVAO] returns. *)
Record VAO := mkVAO { vao : nat; count : R; indexed : bool }.

(** The cached uniform locations, each named by the uniform it resolves. *)
Record Uniforms := mkUniforms {
  color : string; model : string; viewProj : string; pointSize : string }.

(** The object [state]. *)
Record State := mkState {
  mode : Mode;
  cx : R; cy : R; cz : R;
  ang : R;
  zoom : R;
  fovDeg : R; near : R; far : R;
  program : option nat;
  uniforms : option Uniforms;
  geo : gmap string VAO;
  _dirty : bool;
  _raf : Z }.

(** What the program reads and writes outside [state]: the canvas
    backing store, the browser's list of animation-frame callbacks (all
    of them are [frame]; handles are non-zero), and in the GL context the
    vertex arrays with the data of their buffer, the value of the uniform
    [uViewProj], the next free program handle, the number of calls of
    [render] that returned, and the program in use, if any. *)
Record Host := mkHost {
  canvas_width : Z; canvas_height : Z;
  raf_queue : list Z; raf_next : positive;
  gl_vertex_arrays : list (list R);
  gl_programs : nat;
  gl_uViewProj : option (list R);
  render_passes : nat;
  gl_program : option nat }.

Record World := mkWorld { st : State; host : Host }.

Definition set_mode v s := mkState v (cx s) (cy s) (cz s) (ang s) (zoom s) (fovDeg s) (near s) (far s) (program s) (uniforms s) (geo s) (_dirty s) (_raf s).
Definition set_cx v s := mkState (mode s) v (cy s) (cz s) (ang s) (zoom s) (fovDeg s) (near s) (far s) (program s) (uniforms s) (geo s) (_dirty s) (_raf s).
Definition set_cy v s := mkState (mode s) (cx s) v (cz s) (ang s) (zoom s) (fovDeg s) (near s) (far s) (program s) (uniforms s) (geo s) (_dirty s) (_raf s).
Definition set_cz v s := mkState (mode s) (cx s) (cy s) v (ang s) (zoom s) (fovDeg s) (near s) (far s) (program s) (uniforms s) (geo s) (_dirty s) (_raf s).
Definition set_ang v s := mkState (mode s) (cx s) (cy s) (cz s) v (zoom s) (fovDeg s) (near s) (far s) (program s) (uniforms s) (geo s) (_dirty s) (_raf s).
Definition set_zoom v s := mkState (mode s) (cx s) (cy s) (cz s) (ang s) v (fovDeg s) (near s) (far s) (program s) (uniforms s) (geo s) (_dirty s) (_raf s).
Definition set_fovDeg v s := mkState (mode s) (cx s) (cy s) (cz s) (ang s) (zoom s) v (near s) (far s) (program s) (uniforms s) (geo s) (_dirty s) (_raf s).
Definition set_program v s := mkState (mode s) (cx s) (cy s) (cz s) (ang s) (zoom s) (fovDeg s) (near s) (far s) v (uniforms s) (geo s) (_dirty s) (_raf s).
Definition set_uniforms v s := mkState (mode s) (cx s) (cy s) (cz s) (ang s) (zoom s) (fovDeg s) (near s) (far s) (program s) v (geo s) (_dirty s) (_raf s).
Definition set_geo v s := mkState (mode s) (cx s) (cy s) (cz s) (ang s) (zoom s) (fovDeg s) (near s) (far s) (program s) (uniforms s) v (_dirty s) (_raf s).
Definition set__dirty v s := mkState (mode s) (cx s) (cy s) (cz s) (ang s) (zoom s) (fovDeg s) (near s) (far s) (program s) (uniforms s) (geo s) v (_raf s).
Definition set__raf v s := mkState (mode s) (cx s) (cy s) (cz s) (ang s) (zoom s) (fovDeg s) (near s) (far s) (program s) (uniforms s) (geo s) (_dirty s) v.

Definition set_canvas w h e := mkHost w h (raf_queue e) (raf_next e) (gl_vertex_arrays e) (gl_programs e) (gl_uViewProj e) (render_passes e) (gl_program e).
Definition set_raf q n e := mkHost (canvas_width e) (canvas_height e) q n (gl_vertex_arrays e) (gl_programs e) (gl_uViewProj e) (render_passes e) (gl_program e).
Definition set_gl_vertex_arrays v e := mkHost (canvas_width e) (canvas_height e) (raf_queue e) (raf_next e) v (gl_programs e) (gl_uViewProj e) (render_passes e) (gl_program e).
Definition set_gl_programs v e := mkHost (canvas_width e) (canvas_height e) (raf_queue e) (raf_next e) (gl_vertex_arrays e) v (gl_uViewProj e) (render_passes e) (gl_program e).
Definition set_gl_uViewProj v e := mkHost (canvas_width e) (canvas_height e) (raf_queue e) (raf_next e) (gl_vertex_arrays e) (gl_programs e) v (render_passes e) (gl_program e).
Definition set_render_passes v e := mkHost (canvas_width e) (canvas_height e) (raf_queue e) (raf_next e) (gl_vertex_arrays e) (gl_programs e) (gl_uViewProj e) v (gl_program e).
Definition set_gl_program v e := mkHost (canvas_width e) (canvas_height e) (raf_queue e) (raf_next e) (gl_vertex_arrays e) (gl_programs e) (gl_uViewProj e) (render_passes e) v.

Definition on_st (f : State -> State) (w : World) : World := mkWorld (f (st w)) (host w).
Definition on_host (f : Host -> Host) (w : World) : World := mkWorld (st w) (f (host w)).

(** The literal [const state = {...}]. *)
Definition state0 : State :=
  {| mode := ortho;
     cx := 0; cy := 0; cz := 3;
     ang := 0;
     zoom := 1;
     fovDeg := 60; near := 0.01; far := 100;
     program := None;
     uniforms := None;
     geo := ∅;
     _dirty := true;
     _raf := 0 |}.

(** The browser before the script runs: a canvas of the size the page
    gives it, no callback requested, an empty GL context. *)
Definition host0 (w h : Z) : Host :=
  {| canvas_width := w; canvas_height := h;
     raf_queue := []; raf_next := 1%positive;
     gl_vertex_arrays := [];
     gl_programs := 0;
     gl_uViewProj := None;
     render_passes := 0;
     gl_program := None |}.

Definition world0 (w h : Z) : World := mkWorld state0 (host0 w h).

(** ** One-shot render scheduler *)

(** [requestAnimationFrame(frame)]: the callback joins the browser's list
    and a fresh non-zero handle is returned. *)
Definition requestAnimationFrame (e : Host) : Z * Host :=
  let id := Z.pos (raf_next e) in
  (id, set_raf (raf_queue e ++ [id]) (Pos.succ (raf_next e)) e).

(** [cancelAnimationFrame(id)]: the callback with that handle, if any,
    leaves the list. *)
Definition cancelAnimationFrame (id : Z) (e : Host) : Host :=
  set_raf (List.filter (fun h => negb (h =? id)%Z) (raf_queue e)) (raf_next e) e.

(** [render()]: one render pass.  Its first [draw] reads
    [state.uniforms.color] and [state.geo.circle.vao], its last ones
    [state.geo.point.vao]: while [state.uniforms] is null or one of the
    two descriptors is missing, that read throws a TypeError and the
    pass is abandoned ([None]).  Otherwise the draw calls, with their
    random placements, only write to the frame buffer, which is not
    modelled, and the call returns. *)
Definition render (w : World) : option World :=
  match uniforms (st w), geo (st w) !! "circle", geo (st w) !! "point" with
  | Some _, Some _, Some _ =>
      Some (on_host (fun e => set_render_passes (S (render_passes e)) e) w)
  | _, _, _ => None
  end.

Definition markDirty (w : World) : World :=
  let w := on_st (set__dirty true) w in
  if (_raf (st w) =? 0)%Z
  then let '(id, e) := requestAnimationFrame (host w) in
       mkWorld (set__raf id (st w)) e
  else w.

(** [frame()].  When [render()] throws, the exception leaves [frame]
    before [state._dirty = false] is reached. *)
Definition frame (w : World) : World :=
  let w := on_st (set__raf 0%Z) w in
  if _dirty (st w)
  then
    match render w with
    | Some w' => on_st (set__dirty false) w'
    | None => w
    end
  else w.

(** The browser runs the oldest requested callback, which is [frame];
    nothing runs when no callback is requested. *)
Definition run_animation_frame (w : World) : option World :=
  match raf_queue (host w) with
  | [] => None
  | _ :: q => Some (frame (on_host (fun e => set_raf q (raf_next e) e) w))
  end.

(** ** Camera and view-projection *)

Section Camera.
Import Mat4.
Local Open Scope R_scope.

(** [canvas.width / canvas.height]. *)
Definition aspect_of (e : Host) : R :=
  IZR (canvas_width e) / IZR (canvas_height e).

(** The divisor of [halfH] in the orthographic branch. *)
Definition halfH_divisor (s : State) : R := Rmax 0.001 (zoom s).

(** The two local matrices [P] and [V] of [computeViewProj]. *)
Definition computeViewProj_PV (w : World) : list R * list R :=
  let aspect := aspect_of (host w) in
  let s := st w in
  let P :=
    match mode s with
    | persp => mat4Perspective (fovDeg s) aspect (near s) (far s)
    | ortho =>
        let halfH := 1 / halfH_divisor s in
        let halfW := halfH * aspect in
        mat4Ortho (- halfW) halfW (- halfH) halfH (-10) 10
    end in
  let V := mat4View (cx s) (cy s) (cz s) (ang s) in
  (P, V).

Definition computeViewProj (w : World) : list R :=
  let '(P, V) := computeViewProj_PV w in
  mat4Mul P V.

(** [uploadViewProj()], the later of the two declarations of that name,
    which is the one in force: it returns early while [state.uniforms]
    is null.  [gl.uniformMatrix4fv] sets the uniform of the program in
    use and has no effect when there is none (a lost context). *)
Definition uploadViewProj (w : World) : World :=
  match uniforms (st w) with
  | None => w
  | Some _ =>
      match gl_program (host w) with
      | Some _ => on_host (set_gl_uViewProj (Some (computeViewProj w))) w
      | None => w
      end
  end.

End Camera.

(** ** Geometry (VAO) *)

Section Geometry.
Import Mat4.
Local Open Scope R_scope.

(** [makeVAO(verts)]: a new vertex array whose attribute 0 reads [verts]
    two floats at a time. *)
Definition makeVAO (verts : list R) (e : Host) : VAO * Host :=
  ({| vao := length (gl_vertex_arrays e);
      count := INR (length verts) / 2;
      indexed := false |},
   set_gl_vertex_arrays (gl_vertex_arrays e ++ [verts]) e).

(** The array [verts] that the loop of [makePolygonVAO] fills. *)
Definition makePolygonVAO_verts (segments : nat) : list R :=
  for_lt segments
    (fun i verts =>
       let t := (INR i / INR segments) * PI * 2 in
       verts ++ [cos t; sin t])
    [].

Definition makePolygonVAO (segments : nat) (e : Host) : VAO * Host :=
  makeVAO (makePolygonVAO_verts segments) e.

(** [state.geo.<name> = <builder>]. *)
Definition geo_assign (name : string) (build : Host -> VAO * Host)
    (w : World) : World :=
  let '(d, e) := build (host w) in
  mkWorld (set_geo (<[name := d]> (geo (st w))) (st w)) e.

Definition initGeometry (w : World) : World :=
  let w := geo_assign "point" (makeVAO [0; 0]) w in
  let w := geo_assign "line" (makeVAO [-0.5; 0; 0.5; 0]) w in
  let w := geo_assign "tri" (makePolygonVAO 3) w in
  let w := geo_assign "square" (makePolygonVAO 4) w in
  let w := geo_assign "circle" (makePolygonVAO 96) w in
  let w := geo_assign "hexagon" (makePolygonVAO 6) w in
  w.

(** How attribute 0 reads a buffer ([vertexAttribPointer(0, 2, FLOAT,
    false, 0, 0)]): tightly packed pairs (x, y). *)
Fixpoint vertices (data : list R) : list (R * R) :=
  match data with
  | x :: y :: rest => (x, y) :: vertices rest
  | _ => []
  end.

(** The triangles of [gl.TRIANGLE_FAN], the mode [render] fills circles
    with: the first vertex is a hub, and each further vertex makes a
    triangle with the previous vertex and the hub. *)
Definition triangle_fan (vs : list (R * R)) : list ((R * R) * (R * R) * (R * R)) :=
  match vs with
  | [] => []
  | hub :: rim => map (fun '(a, b) => (hub, a, b)) (combine rim (tl rim))
  end.

Definition on_unit_circle (v : R * R) : Prop := fst v * fst v + snd v * snd v = 1.

End Geometry.

(** ** UI wiring *)

Section UI.
Local Open Scope R_scope.

(** [clamp(v, lo, hi)]. *)
Definition clamp (v lo hi : R) : R := Rmin hi (Rmax lo v).

(** The closure [push] of [bindControl(rangeEl, numEl, apply)], at the
    number [+v] its argument converts to.  The two mirrored writes to the
    controls' [value] change the page only. *)
Definition bindControl_push (apply : R -> State -> State) (v : R) (w : World) : World :=
  let w := on_st (apply v) w in
  let w := uploadViewProj w in
  markDirty w.

(** [updateUIState()] enables and disables controls of the page; no field
    of [state], the canvas or the GL context is written. *)
Definition updateUIState (w : World) : World := w.

(** The [apply] argument of each of the six bindings. *)
Definition apply_cx (v : R) : State -> State := set_cx v.
Definition apply_cy (v : R) : State -> State := set_cy v.
Definition apply_ang (v : R) : State -> State := set_ang ((v * PI) / 180).
Definition apply_zoom (v : R) : State -> State := set_zoom (Rmax 0.001 v).
Definition apply_fov (v : R) : State -> State := set_fovDeg (clamp v 1 179).
Definition apply_camz (v : R) : State -> State := set_cz (Rmax 0.05 v).

(** The [change] handlers of the two mode radio buttons; [checked] is the
    button's own [checked] property when the event is delivered. *)
Definition modeOrtho_change (checked : bool) (w : World) : World :=
  if checked
  then
    let w := on_st (set_mode ortho) w in
    let w := updateUIState w in
    let w := uploadViewProj w in
    markDirty w
  else w.

Definition modePersp_change (checked : bool) (w : World) : World :=
  if checked
  then
    let w := on_st (set_mode persp) w in
    let w := updateUIState w in
    let w := uploadViewProj w in
    markDirty w
  else w.

(** The [click] handler of the reset button; [modeOrtho_checked] is
    [modeOrtho.checked]. *)
Definition reset_click (modeOrtho_checked : bool) (w : World) : World :=
  let w := on_st (set_cx 0) w in
  let w := on_st (set_cy 0) w in
  let w := on_st (set_ang 0) w in
  let w := on_st (set_mode (if modeOrtho_checked then ortho else persp)) w in
  let w := on_st (set_zoom 1.0) w in
  let w := on_st (set_fovDeg 60) w in
  let w := on_st (set_cz 3.0) w in
  let w := updateUIState w in
  let w := uploadViewProj w in
  markDirty w.

(** [resize()], at the backing-store size [nw] x [nh] computed from the
    window and the device pixel ratio. *)
Definition resize (nw nh : Z) (w : World) : World :=
  let w :=
    if negb (canvas_width (host w) =? nw)%Z || negb (canvas_height (host w) =? nh)%Z
    then
      let w := on_host (set_canvas nw nh) w in
      let w := uploadViewProj w in
      markDirty w
    else w in
  updateUIState w.

(** [initProgram()]; [ok] tells whether both shaders compile and the
    program links.  When they do not, the error is thrown before anything
    is written.  The new program is put in use; its uniforms have not
    been set yet. *)
Definition initProgram (ok : bool) (w : World) : option World :=
  if ok
  then
    let p := gl_programs (host w) in
    let w := on_host (set_gl_programs (S p)) w in
    let w := on_host (set_gl_program (Some p)) w in
    let w := on_host (set_gl_uViewProj None) w in
    let w := on_st (set_program (Some p)) w in
    Some (on_st (set_uniforms (Some
      {| color := "uColor"; model := "uModel";
         viewProj := "uViewProj"; pointSize := "uPointSize" |})) w)
  else None.

Definition initGL (ok : bool) (w : World) : option World :=
  match initProgram ok w with
  | None => None
  | Some w =>
      let w := initGeometry w in
      let w := uploadViewProj w in
      Some (markDirty w)
  end.

(** What a lost context takes with it: the vertex arrays and their
    buffers, the program in use and the values of its uniforms. *)
Definition lose_context (e : Host) : Host :=
  set_gl_uViewProj None (set_gl_program None (set_gl_vertex_arrays [] e)).

(** The [webglcontextlost] event: the context is lost, then the handler
    cancels the requested callback.  [webglcontextrestored]: the handler
    runs on the restored, empty context. *)
Definition on_contextlost (w : World) : World :=
  on_host (cancelAnimationFrame (_raf (st w))) (on_host lose_context w).

Definition on_contextrestored (ok : bool) (w : World) : option World :=
  match initGL ok w with
  | None => None
  | Some w => Some (markDirty w)
  end.

End UI.

(** ** Everything that can happen to the program *)

Inductive Control := CX | CY | ANGLE | ZOOM | FOV | CAMZ.

Definition apply_of (c : Control) : R -> State -> State :=
  match c with
  | CX => apply_cx
  | CY => apply_cy
  | ANGLE => apply_ang
  | ZOOM => apply_zoom
  | FOV => apply_fov
  | CAMZ => apply_camz
  end.

Inductive Event :=
| Input (c : Control) (v : R)        (* an [input] event, or the first [push] *)
| ModeOrthoChange (checked : bool)
| ModePerspChange (checked : bool)
| ResetClick (modeOrtho_checked : bool)
| Resize (nw nh : Z)
| KickOff (ok : bool)                (* the top-level [initGL()] *)
| ContextLost
| ContextRestored (ok : bool)
| AnimationFrame.

(** A handler that throws leaves the world as it found it; an animation
    frame cannot be delivered when none was requested. *)
Definition step (w : World) (ev : Event) : option World :=
  match ev with
  | Input c v => Some (bindControl_push (apply_of c) v w)
  | ModeOrthoChange b => Some (modeOrtho_change b w)
  | ModePerspChange b => Some (modePersp_change b w)
  | ResetClick b => Some (reset_click b w)
  | Resize nw nh => Some (resize nw nh w)
  | KickOff ok => Some (default w (initGL ok w))
  | ContextLost => Some (on_contextlost w)
  | ContextRestored ok => Some (default w (on_contextrestored ok w))
  | AnimationFrame => run_animation_frame w
  end.

Fixpoint run (evs : list Event) (w : World) : option World :=
  match evs with
  | [] => Some w
  | ev :: evs' =>
      match step w ev with
      | None => None
      | Some w' => run evs' w'
      end
  end.

(** The scheduler on its own: calls of [markDirty] and deliveries of the
    requested callback. *)
Inductive SchedStep := DoMarkDirty | DoFrame.

Definition sched_step (w : World) (s : SchedStep) : option World :=
  match s with
  | DoMarkDirty => Some (markDirty w)
  | DoFrame => run_animation_frame w
  end.

Fixpoint sched_run (steps : list SchedStep) (w : World) : option World :=
  match steps with
  | [] => Some w
  | s :: steps' =>
      match sched_step w s with
      | None => None
      | Some w' => sched_run steps' w'
      end
  end.

(** ** Vocabulary of the properties *)

Section Vocabulary.
Import Mat4.
Local Open Scope R_scope.

(** Entry (r, c) of a column-major array. *)
Definition entry (M : list R) (r c : nat) : R := M !!! idx4 r c.

(** The product of two 4x4 matrices as mathematics has it: entry (r, c)
    is the sum over k of B(r,k) * A(k,c). *)
Definition matrix_product (B A : nat -> nat -> R) (r c : nat) : R :=
  fold_right Rplus 0 (map (fun k => B r k * A k c) (seq 0 4)).

(** The column-major array of a matrix given by its entries. *)
Definition mat4_of (f : nat -> nat -> R) : list R :=
  flat_map (fun c => map (fun r => f r c) (seq 0 4)) (seq 0 4).

(** The camera part of [state]. *)
Definition camera (s : State) : Mode * R * R * R * R * R * R * R * R :=
  (mode s, cx s, cy s, cz s, ang s, zoom s, fovDeg s, near s, far s).

(** The bounds the handlers keep on the clamped camera fields. *)
Definition camera_inv (s : State) : Prop :=
  0.001 <= zoom s /\ 1 <= fovDeg s <= 179 /\ 0.05 <= cz s.

(** Either nothing is requested and [_raf] is 0, or exactly the callback
    whose handle [_raf] holds is requested and the dirty flag is set. *)
Definition sched_inv (w : World) : Prop :=
  (_raf (st w) = 0%Z /\ raf_queue (host w) = [])
  \/ (_raf (st w) <> 0%Z /\ raf_queue (host w) = [_raf (st w)]
      /\ _dirty (st w) = true).

(** What [render] needs in order not to throw: the uniform locations
    and the two descriptors it draws with. *)
Definition can_render (w : World) : Prop :=
  uniforms (st w) <> None
  /\ is_Some (geo (st w) !! "circle")
  /\ is_Some (geo (st w) !! "point").

(** What the specification says of a delivered callback: one render
    pass, and the dirty flag cleared. *)
Definition frame_renders_and_clears (w : World) : Prop :=
  forall w', run_animation_frame w = Some w' ->
    render_passes (host w') = S (render_passes (host w))
    /\ _dirty (st w') = false.

(** The angle of vertex [i] of a polygon of [segments] vertices, and the
    vertex itself. *)
Definition polygon_angle (segments i : nat) : R :=
  (INR i / INR segments) * PI * 2.

Definition polygon_vertex (segments i : nat) : R * R :=
  (cos (polygon_angle segments i), sin (polygon_angle segments i)).

(** The geometry the specification gives the polygon builder:
    [segments] triangles, each with one vertex at the origin and the two
    others on the unit circle. *)
Definition center_triangle (t : (R * R) * (R * R) * (R * R)) : Prop :=
  let '(a, b, c) := t in
  (a = (0, 0) /\ on_unit_circle b /\ on_unit_circle c)
  \/ (b = (0, 0) /\ on_unit_circle a /\ on_unit_circle c)
  \/ (c = (0, 0) /\ on_unit_circle a /\ on_unit_circle b).

Definition center_fan (segments : nat) (tris : list ((R * R) * (R * R) * (R * R))) : Prop :=
  length tris = segments /\ Forall center_triangle tris.

(** The triangles a filled draw of the polygon consists of. *)
Definition polygon_triangles (segments : nat) : list ((R * R) * (R * R) * (R * R)) :=
  triangle_fan (vertices (makePolygonVAO_verts segments)).

End Vocabulary.

(** ** Scene helpers *)

Section Scene.
Local Open Scope R_scope.

(** [within_orbit(orbit_size)], at the value [u] that [Math.random()]
    returns. *)
Definition within_orbit (orbit_size u : R) : R * R :=
  let angle := u * 2 * PI in
  let x := orbit_size * cos angle in
  let y := orbit_size * sin angle in
  (x, y).

(** [random_points(min, max)], at the two values [u1] and [u2] that the
    two calls of [Math.random()] return. *)
Definition random_points (min max u1 u2 : R) : R * R :=
  let x := u1 * (max - min) + min in
  let y := u2 * (max - min) + min in
  (x, y).

End Scene.

(** ** Vocabulary of the further properties *)

Section MoreVocabulary.
Local Open Scope R_scope.

(** While a program is in use its uniform [uViewProj] holds the
    view-projection of the current state; with no program in use (before
    [initGL], or after a context loss) it holds nothing. *)
Definition viewProj_in_sync (w : World) : Prop :=
  match gl_program (host w) with
  | Some _ =>
      uniforms (st w) <> None
      /\ gl_uViewProj (host w) = Some (computeViewProj w)
  | None => gl_uViewProj (host w) = None
  end.

(** What an upload needs to find in order to re-establish it. *)
Definition upload_ready (w : World) : Prop :=
  match gl_program (host w) with
  | Some _ => uniforms (st w) <> None
  | None => gl_uViewProj (host w) = None
  end.

(** What [viewProj_in_sync] looks at. *)
Definition sync_view (w : World) :=
  (uniforms (st w), gl_program (host w), gl_uViewProj (host w), camera (st w),
   canvas_width (host w), canvas_height (host w)).

(** Nothing is requested, or exactly the callback whose handle [_raf]
    holds is requested and the dirty flag is set. *)
Definition raf_inv (w : World) : Prop :=
  raf_queue (host w) = []
  \/ (_raf (st w) <> 0%Z /\ raf_queue (host w) = [_raf (st w)]
      /\ _dirty (st w) = true).

(** The handle is set but no callback is requested, after [n] render
    passes. *)
Definition stuck (n : nat) (w : World) : Prop :=
  _raf (st w) <> 0%Z /\ raf_queue (host w) = [] /\ render_passes (host w) = n.

(** What the scheduler reads and writes. *)
Definition sched_view (w : World) : Z * bool * list Z * nat :=
  (_raf (st w), _dirty (st w), raf_queue (host w), render_passes (host w)).

(** Squared distance of two points of the plane. *)
Definition dist2 (p q : R * R) : R :=
  (fst p - fst q) * (fst p - fst q) + (snd p - snd q) * (snd p - snd q).

(** Every descriptor of [state.geo] names a vertex array of the GL
    context whose buffer holds [count] vertices. *)
Definition geo_ok (w : World) : Prop :=
  forall name d, geo (st w) !! name = Some d ->
    exists data, gl_vertex_arrays (host w) !! vao d = Some data
                 /\ count d * 2 = INR (length data).

(** The descriptors render draws with are there, with 96 vertices for
    the circle and one for the point. *)
Definition geo_ready (w : World) : Prop :=
  (exists d, geo (st w) !! "circle" = Some d /\ count d = 96)
  /\ (exists d, geo (st w) !! "point" = Some d /\ count d = 1).

(** The names [initGeometry] assigns. *)
Definition geo_names : list string :=
  ["point"; "line"; "tri"; "square"; "circle"; "hexagon"].

Definition geo_named (w : World) : Prop :=
  forall name d, geo (st w) !! name = Some d -> In name geo_names.

(** [geo_ok] for the names of a list. *)
Definition geo_ok_on (names : list string) (w : World) : Prop :=
  forall name d, In name names -> geo (st w) !! name = Some d ->
    exists data, gl_vertex_arrays (host w) !! vao d = Some data
                 /\ count d * 2 = INR (length data).

(** What the geometry cache consists of. *)
Definition geo_view (w : World) : gmap string VAO * list (list R) * option Uniforms :=
  (geo (st w), gl_vertex_arrays (host w), uniforms (st w)).

(** Descriptors only dangle while the context holds no vertex array. *)
Definition geo_inv (w : World) : Prop :=
  geo_named w
  /\ (gl_vertex_arrays (host w) <> [] -> geo_ok w)
  /\ (uniforms (st w) <> None -> geo_ready w).

End MoreVocabulary.

(** Name the sixteen entries of an array of that length. *)
Ltac name_entries M H :=
  unfold Mat4.is_mat4 in H;
  do 16 (destruct M as [| ? M]; [discriminate H |]);
  destruct M; [clear H | discriminate H].

(** Equality of two arrays of reals, entry by entry. *)
Ltac ring_entries :=
  repeat (apply (f_equal2 (@cons R)); [ring |]); try reflexivity.

(** * Properties *)

(** ** Matrix library *)

Section MatrixFacts.
Import Mat4.
Local Open Scope R_scope.

Lemma mat4Mul_is_mat4 (B A : list R) : is_mat4 (mat4Mul B A).
Proof. reflexivity. Qed.

Lemma mat4Mul_entries (B A : list R) :
  mat4Mul B A = mat4_of (matrix_product (entry B) (entry A)).
Proof.
  cbv [mat4Mul for_lt mat4Mul_cell Float32Array mat4_of matrix_product entry
       seq fold_left fold_right map flat_map app replicate idx4 Nat.add Nat.mul
       insert list_insert].
  ring_entries.
Qed.

(** C7: multiplying by the identity matrix on the left or on the right
    gives back the matrix: mat4Mul(mat4Identity(), M) = M and
    mat4Mul(M, mat4Identity()) = M for every 4x4 matrix M. *)
Theorem mat4Mul_identity_laws (M : list R) :
  is_mat4 M ->
  mat4Mul mat4Identity M = M /\ mat4Mul M mat4Identity = M.
Proof.
  intros H. name_entries M H.
  split; cbn; ring_entries.
Qed.

Lemma mat4Mul_identity_laws_witness :
  let M := mat4Translate 2 3 5 in
  is_mat4 M /\ mat4Mul mat4Identity M = M /\ mat4Mul M mat4Identity = M.
Proof.
  split; [reflexivity | apply mat4Mul_identity_laws; reflexivity].
Defined.

(** C6: mat4TRS is the product translate * rotateZ * scale: as an array
    it is the mathematical product of the three matrices (associated
    either way), applied to a vector it scales first, then rotates, then
    translates, and at (0,0,0, 0, 1,1,1) it is the identity matrix. *)
Theorem mat4TRS_is_translate_rotate_scale (tx ty tz angZ sx sy sz : R) :
  let T := mat4Translate tx ty tz in
  let Rz := mat4RotateZ angZ in
  let S := mat4Scale sx sy sz in
  mat4TRS tx ty tz angZ sx sy sz
    = mat4_of (matrix_product (entry T)
                 (matrix_product (entry Rz) (entry S)))
  /\ mat4TRS tx ty tz angZ sx sy sz
    = mat4_of (matrix_product
                 (matrix_product (entry T) (entry Rz)) (entry S))
  /\ (forall x y z w : R,
        mat4MulVec (mat4TRS tx ty tz angZ sx sy sz) [x; y; z; w]
        = mat4MulVec T (mat4MulVec Rz (mat4MulVec S [x; y; z; w])))
  /\ (forall x y z : R,
        mat4MulVec (mat4TRS tx ty tz angZ sx sy sz) [x; y; z; 1]
        = [cos angZ * (sx * x) - sin angZ * (sy * y) + tx;
           sin angZ * (sx * x) + cos angZ * (sy * y) + ty;
           sz * z + tz;
           1])
  /\ mat4TRS 0 0 0 0 1 1 1 = mat4Identity.
Proof.
  cbv zeta. repeat split.
  - cbn. ring_entries.
  - cbn. ring_entries.
  - intros x y z w. cbn. ring_entries.
  - intros x y z. cbn. ring_entries.
  - cbn. rewrite cos_0, sin_0. ring_entries.
Qed.

End MatrixFacts.

(** ** Camera *)

Section CameraFacts.
Import Mat4.
Local Open Scope R_scope.

Lemma render_Some (w w' : World) :
  render w = Some w' ->
  w' = on_host (fun e => set_render_passes (S (render_passes e)) e) w.
Proof.
  unfold render.
  destruct (uniforms (st w)); [| discriminate].
  destruct (geo (st w) !! "circle"); [| discriminate].
  destruct (geo (st w) !! "point"); [| discriminate].
  now intros [= <-].
Qed.

(** The two ways [frame] ends: without a render pass (nothing dirty, or
    [render] threw), or after one. *)
Lemma frame_cases (w : World) :
  ((_dirty (st w) = false \/ render (on_st (set__raf 0%Z) w) = None)
   /\ frame w = on_st (set__raf 0%Z) w)
  \/ (_dirty (st w) = true
      /\ is_Some (render (on_st (set__raf 0%Z) w))
      /\ frame w
         = on_st (set__dirty false)
             (on_host (fun e => set_render_passes (S (render_passes e)) e)
                (on_st (set__raf 0%Z) w))).
Proof.
  unfold frame. cbn [st on_st _dirty set__raf].
  destruct (_dirty (st w)); [| left; split; [now left | reflexivity]].
  destruct (render (on_st (set__raf 0%Z) w)) as [w1 |] eqn:E;
    [| left; split; [now right | reflexivity]].
  right. rewrite (render_Some _ _ E). split; [reflexivity |]. split; [| reflexivity].
  eexists; reflexivity.
Qed.

Lemma camera_markDirty (w : World) : camera (st (markDirty w)) = camera (st w).
Proof.
  unfold markDirty. cbn.
  destruct (_raf (st w) =? 0)%Z; reflexivity.
Qed.

Lemma camera_uploadViewProj (w : World) :
  camera (st (uploadViewProj w)) = camera (st w).
Proof. unfold uploadViewProj.
  destruct (uniforms (st w)); [destruct (gl_program (host w)) |]; reflexivity. Qed.

Lemma camera_bindControl_push (apply : R -> State -> State) (v : R) (w : World) :
  camera (st (bindControl_push apply v w)) = camera (apply v (st w)).
Proof.
  unfold bindControl_push.
  rewrite camera_markDirty, camera_uploadViewProj. reflexivity.
Qed.

Lemma halfH_divisor_pos (s : State) : 0 < halfH_divisor s.
Proof.
  unfold halfH_divisor.
  apply Rlt_le_trans with 0.001; [lra | apply Rmax_l].
Qed.

(** C3: in orthographic mode with zoom 1, the camera at (0,0,0), yaw 0
    and a square viewport, the matrix computeViewProj returns sends the
    point (0,0,0,1) to clip coordinates of the form (0,0,*,1); the third
    coordinate is 0. *)
Theorem computeViewProj_ortho_origin (w : World) :
  mode (st w) = ortho ->
  zoom (st w) = 1 ->
  cx (st w) = 0 -> cy (st w) = 0 -> cz (st w) = 0 ->
  ang (st w) = 0 ->
  canvas_width (host w) = canvas_height (host w) ->
  canvas_height (host w) <> 0%Z ->
  aspect_of (host w) = 1 /\
  mat4MulVec (computeViewProj w) [0; 0; 0; 1] = [0; 0; 0; 1].
Proof.
  intros Hm Hz Hx Hy Hcz Ha Hsq Hh.
  assert (Hasp : aspect_of (host w) = 1).
  { unfold aspect_of. rewrite Hsq. apply Rdiv_diag. now apply not_0_IZR. }
  split; [exact Hasp |].
  unfold computeViewProj, computeViewProj_PV.
  rewrite Hm, Hx, Hy, Hcz, Ha, Hasp.
  unfold halfH_divisor. rewrite Hz.
  rewrite Rmax_right by lra.
  cbn. unfold Rdiv. ring_entries.
Qed.

Lemma computeViewProj_ortho_origin_witness :
  let w := mkWorld (set_cz 0 state0) (host0 600 600) in
  aspect_of (host w) = 1 /\
  mat4MulVec (computeViewProj w) [0; 0; 0; 1] = [0; 0; 0; 1].
Proof.
  apply computeViewProj_ortho_origin; try reflexivity. discriminate.
Defined.

(** C5: whatever value the zoom control applies, the zoom stored is at
    least 0.001 (an input of 0 is stored as 0.001), and the divisor of
    1.0 / ... in computeViewProj is that stored zoom, which is positive:
    the half height is a quotient by a non-zero number. *)
Theorem zoom_input_clamped_before_division (w : World) (v : R) :
  let w' := bindControl_push apply_zoom v w in
  zoom (st w') = Rmax 0.001 v
  /\ 0.001 <= zoom (st w')
  /\ zoom (st (bindControl_push apply_zoom 0 w)) = 0.001
  /\ halfH_divisor (st w') = zoom (st w')
  /\ halfH_divisor (st w') <> 0
  /\ 0 < 1 / halfH_divisor (st w') <= 1000.
Proof.
  cbv zeta.
  pose proof (camera_bindControl_push apply_zoom v w) as Hv.
  pose proof (camera_bindControl_push apply_zoom 0 w) as H0.
  unfold camera in Hv, H0. cbn in Hv, H0.
  injection Hv as _ _ _ _ _ Hz _ _ _. injection H0 as _ _ _ _ _ Hz0 _ _ _.
  pose proof (halfH_divisor_pos (st (bindControl_push apply_zoom v w))) as Hpos.
  assert (Hge : 0.001 <= Rmax 0.001 v) by apply Rmax_l.
  assert (Hd : halfH_divisor (st (bindControl_push apply_zoom v w)) = Rmax 0.001 v).
  { unfold halfH_divisor. rewrite Hz. apply Rmax_right. exact Hge. }
  rewrite Hz, Hz0, Hd.
  repeat split; try lra.
  - apply Rmax_left. lra.
  - apply Rdiv_lt_0_compat; lra.
  - apply Rmult_le_reg_r with (Rmax 0.001 v); [lra |].
    unfold Rdiv. rewrite Rmult_assoc, Rinv_l by lra. lra.
Qed.




End CameraFacts.

(** ** Event handlers and the camera *)

Section HandlerFacts.
Local Open Scope R_scope.

Lemma camera_frame (w : World) : camera (st (frame w)) = camera (st w).
Proof. destruct (frame_cases w) as [(_ & ->) | (_ & _ & ->)]; reflexivity. Qed.

Lemma camera_run_animation_frame (w w' : World) :
  run_animation_frame w = Some w' -> camera (st w') = camera (st w).
Proof.
  unfold run_animation_frame. destruct (raf_queue (host w)); [discriminate |].
  intros [= <-]. now rewrite camera_frame.
Qed.

Lemma camera_initGeometry (w : World) : camera (st (initGeometry w)) = camera (st w).
Proof. reflexivity. Qed.

Lemma camera_initGL (ok : bool) (w w' : World) :
  initGL ok w = Some w' -> camera (st w') = camera (st w).
Proof.
  unfold initGL, initProgram. destruct ok; [| discriminate].
  intros [= <-].
  rewrite camera_markDirty, camera_uploadViewProj, camera_initGeometry.
  reflexivity.
Qed.

Lemma camera_resize (nw nh : Z) (w : World) :
  camera (st (resize nw nh w)) = camera (st w).
Proof.
  unfold resize, updateUIState.
  destruct (negb _ || negb _); [| reflexivity].
  rewrite camera_markDirty, camera_uploadViewProj. reflexivity.
Qed.

Lemma camera_modeOrtho_change (checked : bool) (w : World) :
  camera (st (modeOrtho_change checked w))
  = camera (if checked then set_mode ortho (st w) else st w).
Proof.
  unfold modeOrtho_change, updateUIState. destruct checked; [| reflexivity].
  rewrite camera_markDirty, camera_uploadViewProj. reflexivity.
Qed.

Lemma camera_modePersp_change (checked : bool) (w : World) :
  camera (st (modePersp_change checked w))
  = camera (if checked then set_mode persp (st w) else st w).
Proof.
  unfold modePersp_change, updateUIState. destruct checked; [| reflexivity].
  rewrite camera_markDirty, camera_uploadViewProj. reflexivity.
Qed.

Lemma camera_reset_click (b : bool) (w : World) :
  camera (st (reset_click b w))
  = (if b then ortho else persp, 0, 0, 3.0, 0, 1.0, 60, near (st w), far (st w)).
Proof.
  unfold reset_click, updateUIState.
  rewrite camera_markDirty, camera_uploadViewProj. reflexivity.
Qed.

(** C4: each of the two mode handlers leaves cx, cy, cz and ang (and the
    projection parameters zoom, fovDeg, near, far) exactly as they were;
    of the camera only the mode field changes, to the mode of the button
    when it is checked and not at all otherwise. *)
Theorem mode_switch_changes_only_mode (checked : bool) (w : World) :
  let wo := modeOrtho_change checked w in
  let wp := modePersp_change checked w in
  (cx (st wo), cy (st wo), cz (st wo), ang (st wo))
    = (cx (st w), cy (st w), cz (st w), ang (st w))
  /\ (cx (st wp), cy (st wp), cz (st wp), ang (st wp))
    = (cx (st w), cy (st w), cz (st w), ang (st w))
  /\ camera (st wo) = camera (set_mode (if checked then ortho else mode (st w)) (st w))
  /\ camera (st wp) = camera (set_mode (if checked then persp else mode (st w)) (st w)).
Proof.
  cbv zeta.
  pose proof (camera_modeOrtho_change checked w) as Ho.
  pose proof (camera_modePersp_change checked w) as Hp.
  assert (Ho' : camera (st (modeOrtho_change checked w))
                = camera (set_mode (if checked then ortho else mode (st w)) (st w)))
    by (rewrite Ho; destruct checked; reflexivity).
  assert (Hp' : camera (st (modePersp_change checked w))
                = camera (set_mode (if checked then persp else mode (st w)) (st w)))
    by (rewrite Hp; destruct checked; reflexivity).
  clear Ho Hp. repeat split; try assumption.
  - unfold camera in Ho'. cbn in Ho'. injection Ho' as _ -> -> -> -> _ _ _ _.
    reflexivity.
  - unfold camera in Hp'. cbn in Hp'. injection Hp' as _ -> -> -> -> _ _ _ _.
    reflexivity.
Qed.

Lemma camera_inv_ext (a b : State) :
  camera a = camera b -> camera_inv b -> camera_inv a.
Proof.
  unfold camera, camera_inv. intros H.
  injection H as _ _ _ -> _ -> -> _ _. tauto.
Qed.

Lemma clamp_bounds (v lo hi : R) : lo <= hi -> lo <= clamp v lo hi <= hi.
Proof.
  intros H. unfold clamp. split.
  - apply Rmin_glb; [exact H | apply Rmax_l].
  - apply Rmin_l.
Qed.

Lemma camera_inv_apply (c : Control) (v : R) (s : State) :
  camera_inv s -> camera_inv (apply_of c v s).
Proof.
  unfold camera_inv. intros (Hz & Hf & Hc).
  destruct c; cbn; repeat split; try tauto.
  - apply Rmax_l.
  - apply clamp_bounds; lra.
  - apply clamp_bounds; lra.
  - apply Rmax_l.
Qed.

(** Every handler keeps the clamped fields within their bounds. *)
Lemma step_camera_inv (w w' : World) (ev : Event) :
  step w ev = Some w' -> camera_inv (st w) -> camera_inv (st w').
Proof.
  intros Hs Hinv.
  destruct ev as [c v | b | b | b | nw nh | ok | | ok |]; cbn [step] in Hs;
    try (injection Hs as <-).
  - eapply camera_inv_ext; [apply camera_bindControl_push |].
    now apply camera_inv_apply.
  - eapply camera_inv_ext; [apply camera_modeOrtho_change |].
    destruct b; exact Hinv.
  - eapply camera_inv_ext; [apply camera_modePersp_change |].
    destruct b; exact Hinv.
  - pose proof (camera_reset_click b w) as H. unfold camera in H.
    injection H as _ _ _ Hc _ Hz Hf _ _.
    unfold camera_inv. rewrite Hc, Hz, Hf. lra.
  - eapply camera_inv_ext; [apply camera_resize | exact Hinv].
  - destruct (initGL ok w) eqn:E; cbn; [| exact Hinv].
    eapply camera_inv_ext; [eapply camera_initGL; eassumption | exact Hinv].
  - exact Hinv.
  - unfold on_contextrestored.
    destruct (initGL ok w) eqn:E; cbn; [| exact Hinv].
    eapply camera_inv_ext; [apply camera_markDirty |].
    eapply camera_inv_ext; [eapply camera_initGL; eassumption | exact Hinv].
  - eapply camera_inv_ext;
      [eapply camera_run_animation_frame; eassumption | exact Hinv].
Qed.

Lemma camera_inv_world0 (cw ch : Z) : camera_inv (st (world0 cw ch)).
Proof. unfold camera_inv. cbn. lra. Qed.

Lemma run_camera_inv (evs : list Event) (w w' : World) :
  run evs w = Some w' -> camera_inv (st w) -> camera_inv (st w').
Proof.
  revert w. induction evs as [| ev evs IH]; intros w; cbn [run].
  - now intros [= <-].
  - destruct (step w ev) as [w1 |] eqn:E; [| discriminate].
    intros Hrun Hw. apply (IH w1 Hrun). eapply step_camera_inv; eassumption.
Qed.

(** C10: the camera-depth control stores max(0.05, v), so any smaller
    or non-positive input is stored as 0.05; the initial depth is 3 and
    reset stores 3.0; hence in every world the program reaches from its
    initial state, by any sequence of events, cz is at least 0.05, and
    it still is after one more event. *)
Theorem cz_never_below_0_05 (cw ch : Z) (evs : list Event) (w : World) :
  run evs (world0 cw ch) = Some w ->
  0.05 <= cz (st w)
  /\ cz (st (world0 cw ch)) = 3
  /\ (forall b, cz (st (reset_click b w)) = 3.0)
  /\ (forall v, cz (st (bindControl_push apply_camz v w)) = Rmax 0.05 v)
  /\ (forall v, v <= 0.05 -> cz (st (bindControl_push apply_camz v w)) = 0.05)
  /\ (forall ev w', step w ev = Some w' -> 0.05 <= cz (st w')).
Proof.
  intros Hrun.
  pose proof (run_camera_inv _ _ _ Hrun (camera_inv_world0 cw ch)) as Hinv.
  assert (Hcamz : forall v, cz (st (bindControl_push apply_camz v w)) = Rmax 0.05 v).
  { intros v. pose proof (camera_bindControl_push apply_camz v w) as H.
    unfold camera in H. now injection H. }
  repeat split.
  - apply Hinv.
  - intros b. pose proof (camera_reset_click b w) as H. unfold camera in H.
    now injection H.
  - exact Hcamz.
  - intros v Hv. rewrite Hcamz. now apply Rmax_left.
  - intros ev w' Hstep. apply (step_camera_inv _ _ _ Hstep Hinv).
Qed.

Lemma cz_never_below_0_05_witness :
  exists w,
    run [Input CAMZ (-7); ModePerspChange true; AnimationFrame] (world0 300 150) = Some w
    /\ 0.05 <= cz (st w).
Proof.
  eexists. split; [reflexivity |].
  exact (proj1 (cz_never_below_0_05 300 150
                  [Input CAMZ (-7); ModePerspChange true; AnimationFrame]
                  _ eq_refl)).
Defined.



End HandlerFacts.

(** ** Redraw scheduler *)

Section SchedulerFacts.

Lemma sched_inv_world0 (cw ch : Z) : sched_inv (world0 cw ch).
Proof. left. split; reflexivity. Qed.

Lemma markDirty_requested (w : World) :
  _raf (st w) <> 0%Z -> markDirty w = on_st (set__dirty true) w.
Proof.
  intros H. unfold markDirty. cbn.
  destruct (Z.eqb_spec (_raf (st w)) 0); [contradiction | reflexivity].
Qed.

Lemma sched_inv_markDirty (w : World) : sched_inv w -> sched_inv (markDirty w).
Proof.
  intros [[H0 Hq] | (Hn & Hq & Hd)]; right.
  - unfold markDirty. cbn. rewrite H0. cbn. rewrite Hq.
    repeat split. discriminate.
  - rewrite (markDirty_requested w Hn). cbn. repeat split; assumption.
Qed.

Lemma render_Some_can (w w' : World) : render w = Some w' -> can_render w.
Proof.
  unfold render, can_render.
  destruct (uniforms (st w)); [| discriminate].
  destruct (geo (st w) !! "circle"); [| discriminate].
  destruct (geo (st w) !! "point"); [| discriminate].
  intros _. repeat split; [discriminate | eexists; reflexivity ..].
Qed.

Lemma render_None_cannot (w : World) : render w = None -> ~ can_render w.
Proof.
  unfold render, can_render. intros H (Hu & [c Hc] & [p Hp]).
  rewrite Hc, Hp in H. destruct (uniforms (st w)); [discriminate | now apply Hu].
Qed.

(** What a delivered callback leaves behind. *)
Lemma frame_delivered (w w' : World) :
  sched_inv w -> run_animation_frame w = Some w' ->
  _raf (st w') = 0%Z
  /\ raf_queue (host w') = []
  /\ (can_render w ->
      render_passes (host w') = S (render_passes (host w))
      /\ _dirty (st w') = false)
  /\ (~ can_render w ->
      render_passes (host w') = render_passes (host w)
      /\ _dirty (st w') = true).
Proof.
  unfold run_animation_frame.
  intros [[_ ->] | (_ & -> & Hd)]; [discriminate |].
  intros [= <-].
  remember (on_host (fun e => set_raf [] (raf_next e) e) w) as w0 eqn:Hw0.
  assert (Hd0 : _dirty (st w0) = true) by (subst; exact Hd).
  assert (Hcan : can_render (on_st (set__raf 0%Z) w0) <-> can_render w)
    by (subst; reflexivity).
  assert (Hp : render_passes (host w0) = render_passes (host w))
    by (subst; reflexivity).
  assert (Hq : raf_queue (host w0) = []) by (subst; reflexivity).
  destruct (frame_cases w0) as [([Hc | E] & ->) | (_ & [w2 E] & ->)].
  - congruence.
  - apply render_None_cannot in E. cbn [st host on_st _raf _dirty set__raf].
    split; [reflexivity |]. split; [exact Hq |]. split.
    + intros Hc. destruct E. now apply Hcan.
    + intros _. split; assumption.
  - apply render_Some_can in E. cbn.
    split; [reflexivity |]. split; [exact Hq |]. split.
    + intros _. split; [now rewrite Hp | reflexivity].
    + intros Hn. destruct Hn. now apply Hcan.
Qed.

Lemma sched_inv_run_animation_frame (w w' : World) :
  sched_inv w -> run_animation_frame w = Some w' -> sched_inv w'.
Proof.
  intros Hinv Hf. destruct (frame_delivered _ _ Hinv Hf) as (H0 & Hq & _).
  left. now split.
Qed.

Lemma sched_inv_step (w w' : World) (s : SchedStep) :
  sched_inv w -> sched_step w s = Some w' -> sched_inv w'.
Proof.
  intros Hinv. destruct s; cbn.
  - intros [= <-]. now apply sched_inv_markDirty.
  - now apply sched_inv_run_animation_frame.
Qed.

Lemma sched_inv_run (steps : list SchedStep) (w w' : World) :
  sched_inv w -> sched_run steps w = Some w' -> sched_inv w'.
Proof.
  revert w. induction steps as [| s steps IH]; intros w Hinv; cbn.
  - now intros [= <-].
  - destruct (sched_step w s) as [w1 |] eqn:E; [| discriminate].
    apply IH. eapply sched_inv_step; eassumption.
Qed.

(** A render pass happens only inside [frame], and only when the dirty
    flag is set. *)
Lemma no_render_while_clean (w w' : World) (s : SchedStep) :
  _dirty (st w) = false -> sched_step w s = Some w' ->
  render_passes (host w') = render_passes (host w).
Proof.
  intros Hd. destruct s; cbn.
  - intros [= <-]. unfold markDirty. cbn.
    destruct (_raf (st w) =? 0)%Z; reflexivity.
  - unfold run_animation_frame. destruct (raf_queue (host w)); [discriminate |].
    intros [= <-]. unfold frame. cbn [st on_st on_host _dirty set__raf].
    rewrite Hd. reflexivity.
Qed.

Lemma markDirty_requests_one (w : World) :
  sched_inv w -> length (raf_queue (host (markDirty w))) = 1%nat.
Proof.
  intros [[H0 Hq] | (Hn & Hq & _)].
  - unfold markDirty. cbn. rewrite H0. cbn. rewrite Hq. reflexivity.
  - rewrite (markDirty_requested w Hn). cbn. rewrite Hq. reflexivity.
Qed.

(** C2 as stated fails from the program's initial state: with
    state.uniforms still null the delivered callback does no render pass
    (render throws) and leaves the dirty flag set. *)
Lemma scheduler_frame_before_initGL :
  let w := markDirty (world0 300 150) in
  ~ frame_renders_and_clears w
  /\ exists w', run_animation_frame w = Some w'
                /\ render_passes (host w') = render_passes (host w)
                /\ _dirty (st w') = true
                /\ _raf (st w') = 0%Z.
Proof.
  cbv zeta.
  assert (H : exists w', run_animation_frame (markDirty (world0 300 150)) = Some w'
                         /\ render_passes (host w')
                            = render_passes (host (markDirty (world0 300 150)))
                         /\ _dirty (st w') = true
                         /\ _raf (st w') = 0%Z).
  { eexists. split; [reflexivity |]. repeat split. }
  split; [| exact H].
  destruct H as (w' & Hf & _ & Hd & _). intros Hclaim.
  destruct (Hclaim w' Hf) as [_ Hd']. congruence.
Qed.

(** C2 (amended): after any sequence of markDirty calls and callback
    deliveries from the initial scheduler state (dirty, no handle,
    nothing requested), at most one callback is requested; markDirty
    while one is requested requests nothing new, and after markDirty
    exactly one is requested; a delivered callback clears the handle and
    leaves nothing requested, and when the program is initialised (the
    uniform locations and the circle and point descriptors are there)
    it does exactly one render pass and clears the dirty flag, while
    otherwise render throws, no pass is done and the flag stays set; and
    a step taken while the dirty flag is clear renders nothing. *)
Theorem scheduler_one_shot (w0 : World) (steps : list SchedStep) (w : World) :
  _dirty (st w0) = true -> _raf (st w0) = 0%Z -> raf_queue (host w0) = [] ->
  sched_run steps w0 = Some w ->
  (length (raf_queue (host w)) <= 1)%nat
  /\ (raf_queue (host w) <> [] ->
      raf_queue (host (markDirty w)) = raf_queue (host w))
  /\ (length (raf_queue (host (markDirty w))) = 1)%nat
  /\ (forall w', run_animation_frame w = Some w' ->
        _raf (st w') = 0%Z
        /\ raf_queue (host w') = []
        /\ (can_render w ->
            render_passes (host w') = S (render_passes (host w))
            /\ _dirty (st w') = false)
        /\ (~ can_render w ->
            render_passes (host w') = render_passes (host w)
            /\ _dirty (st w') = true))
  /\ (forall s w', _dirty (st w) = false -> sched_step w s = Some w' ->
        render_passes (host w') = render_passes (host w)).
Proof.
  intros _ H0 Hq0 Hrun.
  assert (Hinv0 : sched_inv w0) by (left; now split).
  pose proof (sched_inv_run _ _ _ Hinv0 Hrun) as Hinv.
  split; [| split; [| split; [| split]]].
  - destruct Hinv as [[_ ->] | (_ & -> & _)]; cbn; lia.
  - intros Hne. destruct Hinv as [[_ Hq] | (Hn & _ & _)]; [contradiction |].
    now rewrite (markDirty_requested w Hn).
  - now apply markDirty_requests_one.
  - intros w'. apply frame_delivered. exact Hinv.
  - intros s w' Hd Hs. eapply no_render_while_clean; eassumption.
Qed.

Lemma scheduler_one_shot_witness :
  let w0 :=
    mkWorld
      (set_geo (<["circle" := mkVAO 4 96 false]> (<["point" := mkVAO 0 1 false]> ∅))
         (set_uniforms (Some (mkUniforms "uColor" "uModel" "uViewProj" "uPointSize"))
            state0))
      (host0 300 150) in
  _dirty (st w0) = true /\ _raf (st w0) = 0%Z /\ raf_queue (host w0) = []
  /\ exists w,
      sched_run [DoMarkDirty; DoMarkDirty; DoFrame; DoMarkDirty] w0 = Some w
      /\ (length (raf_queue (host w)) <= 1)%nat
      /\ render_passes (host w) = 1%nat.
Proof.
  intros w0. split; [reflexivity |]. split; [reflexivity |]. split; [reflexivity |].
  eexists. split; [vm_compute; reflexivity |]. split; [| vm_compute; reflexivity].
  refine (proj1 (scheduler_one_shot w0
                   [DoMarkDirty; DoMarkDirty; DoFrame; DoMarkDirty] _
                   eq_refl eq_refl eq_refl _)).
  vm_compute. reflexivity.
Defined.

End SchedulerFacts.

(** ** Geometry *)

Section GeometryFacts.
Local Open Scope R_scope.

Lemma fold_left_push {A B : Type} (f : B -> list A) (l : list B) (init : list A) :
  fold_left (fun acc i => acc ++ f i) l init = init ++ flat_map f l.
Proof.
  revert init. induction l as [| i l IH]; intros init; cbn.
  - now rewrite app_nil_r.
  - rewrite IH. now rewrite <- app_assoc.
Qed.

Lemma makePolygonVAO_verts_flat (segments : nat) :
  makePolygonVAO_verts segments
  = flat_map (fun i => [cos (polygon_angle segments i); sin (polygon_angle segments i)])
      (seq 0 segments).
Proof. unfold makePolygonVAO_verts, for_lt. now rewrite fold_left_push. Qed.

Lemma vertices_flat_map {A : Type} (x y : A -> R) (l : list A) :
  vertices (flat_map (fun i => [x i; y i]) l) = map (fun i => (x i, y i)) l.
Proof. induction l as [| i l IH]; cbn; [reflexivity | now rewrite IH]. Qed.

Lemma polygon_vertices (segments : nat) :
  vertices (makePolygonVAO_verts segments)
  = map (polygon_vertex segments) (seq 0 segments).
Proof. rewrite makePolygonVAO_verts_flat. apply vertices_flat_map. Qed.

Lemma flat_map_pair_length {A : Type} (x y : A -> R) (l : list A) :
  length (flat_map (fun i => [x i; y i]) l) = (2 * length l)%nat.
Proof. induction l as [| i l IH]; cbn; [reflexivity | rewrite IH; lia]. Qed.

Lemma makePolygonVAO_verts_length (segments : nat) :
  length (makePolygonVAO_verts segments) = (2 * segments)%nat.
Proof.
  rewrite makePolygonVAO_verts_flat, flat_map_pair_length.
  now rewrite length_seq.
Qed.

Lemma makePolygonVAO_count (segments : nat) (e : Host) :
  count (fst (makePolygonVAO segments e)) = INR segments.
Proof.
  unfold makePolygonVAO, makeVAO. cbn [fst count].
  rewrite makePolygonVAO_verts_length, mult_INR. cbn [INR]. field.
Qed.

Lemma polygon_vertex_on_unit_circle (segments i : nat) :
  on_unit_circle (polygon_vertex segments i).
Proof.
  unfold on_unit_circle, polygon_vertex. cbn [fst snd].
  pose proof (sin2_cos2 (polygon_angle segments i)) as H.
  unfold Rsqr in H. lra.
Qed.

Lemma on_unit_circle_not_origin (v : R * R) : on_unit_circle v -> v <> (0, 0).
Proof.
  unfold on_unit_circle. intros H ->. cbn in H. lra.
Qed.

Lemma polygon_vertex_0 (segments : nat) : polygon_vertex segments 0 = (1, 0).
Proof.
  unfold polygon_vertex, polygon_angle. cbn [INR].
  replace (0 / INR segments * PI * 2) with 0 by (unfold Rdiv; ring).
  now rewrite cos_0, sin_0.
Qed.

(** The triangles of a fan: one fewer than the vertices after the hub,
    each made of the hub and two of those vertices. *)
Lemma triangle_fan_length (vs : list (R * R)) :
  length (triangle_fan vs) = (length vs - 2)%nat.
Proof.
  destruct vs as [| hub rim]; [reflexivity |].
  cbn [triangle_fan]. rewrite length_map, length_combine.
  destruct rim; cbn [tl length]; lia.
Qed.

Lemma triangle_fan_vertices (vs : list (R * R)) (a b c : R * R) :
  In (a, b, c) (triangle_fan vs) ->
  Some a = head vs /\ In b vs /\ In c vs.
Proof.
  destruct vs as [| hub rim]; [intros [] |].
  cbn [triangle_fan]. rewrite in_map_iff.
  intros [[x y] [[= <- <- <-] Hin]].
  split; [reflexivity |]. split; right.
  - eapply in_combine_l; eassumption.
  - apply in_combine_r in Hin. destruct rim; [contradiction | now right].
Qed.

(** C8: the descriptor makePolygonVAO(segments) returns has a vertex
    count equal to segments, and its buffer holds that many vertices: 4
    for segments = 4 and 96 for segments = 96, which are the counts of
    the square and circle descriptors initGeometry stores. *)
Theorem makePolygonVAO_count_is_segments (segments : nat) (e : Host) (w : World) :
  count (fst (makePolygonVAO segments e)) = INR segments
  /\ gl_vertex_arrays (snd (makePolygonVAO segments e))
       !! vao (fst (makePolygonVAO segments e))
     = Some (makePolygonVAO_verts segments)
  /\ length (vertices (makePolygonVAO_verts segments)) = segments
  /\ count (fst (makePolygonVAO 4 e)) = 4
  /\ count (fst (makePolygonVAO 96 e)) = 96
  /\ count <$> geo (st (initGeometry w)) !! "square" = Some 4
  /\ count <$> geo (st (initGeometry w)) !! "circle" = Some 96.
Proof.
  split; [apply makePolygonVAO_count |].
  split.
  { unfold makePolygonVAO, makeVAO. cbn [fst snd vao gl_vertex_arrays set_gl_vertex_arrays].
    rewrite lookup_app_r by lia. now rewrite Nat.sub_diag. }
  split; [rewrite polygon_vertices, length_map; apply length_seq |].
  split; [rewrite makePolygonVAO_count; cbn; ring |].
  split; [rewrite makePolygonVAO_count; change 96 with (IZR (Z.of_nat 96)); now rewrite <- INR_IZR_INZ |].
  pose proof (makePolygonVAO_count 4) as H4.
  pose proof (makePolygonVAO_count 96) as H96.
  unfold makePolygonVAO, makeVAO in H4, H96. cbn [fst count] in H4, H96.
  split.
  - unfold initGeometry, geo_assign, makePolygonVAO, makeVAO.
    cbn [st host geo set_geo fst snd].
    rewrite lookup_insert_ne by discriminate.
    rewrite lookup_insert_ne by discriminate.
    rewrite lookup_insert_eq. cbn [fmap option_fmap option_map count].
    f_equal. rewrite (H4 e). cbn; ring.
  - unfold initGeometry, geo_assign, makePolygonVAO, makeVAO.
    cbn [st host geo set_geo fst snd].
    rewrite lookup_insert_ne by discriminate.
    rewrite lookup_insert_eq. cbn [fmap option_fmap option_map count].
    f_equal. rewrite (H96 e).
    change 96 with (IZR (Z.of_nat 96)). now rewrite <- INR_IZR_INZ.
Qed.

(** C1 as stated fails at segments = 3: the builder gives three
    vertices, none of them at the origin, which make one triangle, not
    three triangles around a centre. *)
Lemma makePolygonVAO_3_no_center_fan :
  ~ center_fan 3 (polygon_triangles 3)
  /\ length (polygon_triangles 3) = 1%nat
  /\ Forall (fun v => v <> (0, 0)) (vertices (makePolygonVAO_verts 3)).
Proof.
  split; [| split].
  - intros [Hlen _]. unfold polygon_triangles in Hlen.
    rewrite triangle_fan_length, polygon_vertices, length_map, length_seq in Hlen.
    discriminate Hlen.
  - unfold polygon_triangles.
    now rewrite triangle_fan_length, polygon_vertices, length_map, length_seq.
  - rewrite polygon_vertices. apply List.Forall_forall. intros v Hv.
    apply in_map_iff in Hv as [i [<- _]].
    apply on_unit_circle_not_origin, polygon_vertex_on_unit_circle.
Qed.

(** C1 (amended): for segments >= 3, makePolygonVAO, which takes no
    colours, fills its buffer with two floats per vertex for exactly
    [segments] vertices, vertex i being (cos t, sin t) at the angle
    t = i/segments * 2 pi; every vertex lies on the unit circle and none
    at the origin; drawn as a triangle fan they make segments - 2
    triangles whose hub is vertex 0 = (1, 0) and whose three vertices
    all lie on the unit circle. *)
Theorem makePolygonVAO_boundary_fan (segments : nat) (e : Host) :
  (3 <= segments)%nat ->
  let verts := makePolygonVAO_verts segments in
  gl_vertex_arrays (snd (makePolygonVAO segments e))
    !! vao (fst (makePolygonVAO segments e)) = Some verts
  /\ length verts = (2 * segments)%nat
  /\ length (vertices verts) = segments
  /\ (forall i, (i < segments)%nat ->
        vertices verts !! i = Some (polygon_vertex segments i))
  /\ Forall on_unit_circle (vertices verts)
  /\ Forall (fun v => v <> (0, 0)) (vertices verts)
  /\ length (polygon_triangles segments) = (segments - 2)%nat
  /\ Forall (fun '(a, b, c) =>
               a = (1, 0) /\ on_unit_circle a /\ on_unit_circle b /\ on_unit_circle c)
            (polygon_triangles segments).
Proof.
  intros Hseg verts. subst verts.
  assert (Hcirc : Forall on_unit_circle (vertices (makePolygonVAO_verts segments))).
  { rewrite polygon_vertices. apply List.Forall_forall. intros v Hv.
    apply in_map_iff in Hv as [i [<- _]]. apply polygon_vertex_on_unit_circle. }
  split.
  { unfold makePolygonVAO, makeVAO.
    cbn [fst snd vao gl_vertex_arrays set_gl_vertex_arrays].
    rewrite lookup_app_r by lia. now rewrite Nat.sub_diag. }
  split; [apply makePolygonVAO_verts_length |].
  split; [rewrite polygon_vertices, length_map; apply length_seq |].
  split.
  { intros i Hi. rewrite polygon_vertices, list_lookup_fmap.
    rewrite lookup_seq_lt by exact Hi. reflexivity. }
  split; [exact Hcirc |].
  split.
  { eapply Forall_impl; [exact Hcirc |]. apply on_unit_circle_not_origin. }
  split.
  { unfold polygon_triangles.
    now rewrite triangle_fan_length, polygon_vertices, length_map, length_seq. }
  apply List.Forall_forall. intros [[a b] c] Hin.
  unfold polygon_triangles in Hin.
  apply triangle_fan_vertices in Hin as (Hhub & Hb & Hc).
  rewrite List.Forall_forall in Hcirc.
  assert (Ha : a = (1, 0)).
  { rewrite polygon_vertices in Hhub.
    destruct segments as [| n]; [lia |].
    cbn [seq map head] in Hhub. injection Hhub as ->.
    apply polygon_vertex_0. }
  split; [exact Ha |].
  split; [| split; [apply Hcirc, Hb | apply Hcirc, Hc]].
  rewrite Ha. unfold on_unit_circle. cbn. ring.
Qed.

Lemma makePolygonVAO_boundary_fan_witness :
  (3 <= 3)%nat
  /\ length (vertices (makePolygonVAO_verts 3)) = 3%nat
  /\ length (polygon_triangles 3) = 1%nat.
Proof.
  split; [lia |].
  pose proof (makePolygonVAO_boundary_fan 3 (host0 300 150) (le_n 3)) as H.
  cbv zeta in H. destruct H as (_ & _ & Hn & _ & _ & _ & Ht & _).
  split; assumption.
Defined.

End GeometryFacts.

(** * Further properties of the code *)

(** ** Matrix library: composition *)

Section MatrixComposition.
Import Mat4.
Local Open Scope R_scope.

(** X1: [mat4Mul] is associative on 4x4 arrays. *)
Theorem mat4Mul_assoc (C B A : list R) :
  is_mat4 C -> is_mat4 B -> is_mat4 A ->
  mat4Mul (mat4Mul C B) A = mat4Mul C (mat4Mul B A).
Proof.
  intros HC HB HA.
  name_entries C HC. name_entries B HB. name_entries A HA.
  cbn. ring_entries.
Qed.

Lemma mat4Mul_assoc_witness :
  let C := mat4Translate 1 2 3 in
  let B := mat4RotateZ 1 in
  let A := mat4Scale 2 2 2 in
  is_mat4 C /\ is_mat4 B /\ is_mat4 A
  /\ mat4Mul (mat4Mul C B) A = mat4Mul C (mat4Mul B A).
Proof.
  repeat split. apply mat4Mul_assoc; reflexivity.
Defined.

(** X2: the product [mat4Mul(B, A)] acts on a vector as [A] first and
    then [B], in the shader's convention [M * v]. *)
Theorem mat4Mul_applies_right_factor_first (B A : list R) (x y z w : R) :
  is_mat4 B -> is_mat4 A ->
  mat4MulVec (mat4Mul B A) [x; y; z; w]
  = mat4MulVec B (mat4MulVec A [x; y; z; w]).
Proof.
  intros HB HA. name_entries B HB. name_entries A HA.
  cbn. ring_entries.
Qed.

Lemma mat4Mul_applies_right_factor_first_witness :
  let B := mat4Translate 1 0 0 in
  let A := mat4Scale 2 2 2 in
  is_mat4 B /\ is_mat4 A
  /\ mat4MulVec (mat4Mul B A) [1; 1; 1; 1] = mat4MulVec B (mat4MulVec A [1; 1; 1; 1]).
Proof.
  repeat split. apply mat4Mul_applies_right_factor_first; reflexivity.
Defined.

(** X3: [mat4View] is the inverse of the camera's own transform
    translate(pos) * rotateZ(ang), on both sides. *)
Theorem mat4View_inverts_camera_transform (cx cy cz angZ : R) :
  let camera_transform := mat4Mul (mat4Translate cx cy cz) (mat4RotateZ angZ) in
  mat4Mul (mat4View cx cy cz angZ) camera_transform = mat4Identity
  /\ mat4Mul camera_transform (mat4View cx cy cz angZ) = mat4Identity.
Proof.
  cbv zeta. pose proof (sin2_cos2 angZ) as H. unfold Rsqr in H.
  assert (Hx : cx * (sin angZ * sin angZ + cos angZ * cos angZ) = cx)
    by (rewrite H; ring).
  assert (Hy : cy * (sin angZ * sin angZ + cos angZ * cos angZ) = cy)
    by (rewrite H; ring).
  split; cbn; rewrite cos_neg, sin_neg;
    repeat (apply (f_equal2 (@cons R)); [nra |]); reflexivity.
Qed.

(** X4: rotations about Z compose by adding their angles, translations
    by adding their offsets and scalings by multiplying their factors. *)
Theorem elementary_transforms_compose (a b tx ty tz ux uy uz sx sy sz rx ry rz : R) :
  mat4Mul (mat4RotateZ a) (mat4RotateZ b) = mat4RotateZ (a + b)
  /\ mat4Mul (mat4Translate tx ty tz) (mat4Translate ux uy uz)
     = mat4Translate (tx + ux) (ty + uy) (tz + uz)
  /\ mat4Mul (mat4Scale sx sy sz) (mat4Scale rx ry rz)
     = mat4Scale (sx * rx) (sy * ry) (sz * rz).
Proof.
  repeat split.
  - cbn. rewrite cos_plus, sin_plus. ring_entries.
  - cbn. ring_entries.
  - cbn. ring_entries.
Qed.

End MatrixComposition.

(** ** Projections *)

Section ProjectionFacts.
Import Mat4.
Local Open Scope R_scope.

(** X5: the orthographic matrix sends the corner (l, b, -n) of the view
    box to (-1, -1, -1) and the corner (r, t, -f) to (1, 1, 1), keeps
    w = 1, and takes the centre of the box to the origin of clip space,
    provided the box has non-zero extent along each axis. *)
Theorem mat4Ortho_maps_box_to_clip_cube (l r b t n f : R) :
  r <> l -> t <> b -> f <> n ->
  mat4MulVec (mat4Ortho l r b t n f) [l; b; - n; 1] = [-1; -1; -1; 1]
  /\ mat4MulVec (mat4Ortho l r b t n f) [r; t; - f; 1] = [1; 1; 1; 1]
  /\ mat4MulVec (mat4Ortho l r b t n f)
       [(l + r) / 2; (b + t) / 2; - ((n + f) / 2); 1] = [0; 0; 0; 1].
Proof.
  intros Hr Ht Hf.
  repeat split; cbn;
    repeat (apply (f_equal2 (@cons R)); [field; lra |]); reflexivity.
Qed.

Lemma mat4Ortho_maps_box_to_clip_cube_witness :
  mat4MulVec (mat4Ortho (-2) 2 (-1) 1 (-10) 10) [-2; -1; - -10; 1] = [-1; -1; -1; 1].
Proof.
  apply (mat4Ortho_maps_box_to_clip_cube (-2) 2 (-1) 1 (-10) 10); lra.
Defined.

(** X6: the perspective matrix puts -z in the clip w of a point, sends
    a point on the near plane (z = -near) to clip z = -w and a point on
    the far plane (z = -far) to clip z = +w, provided near and far
    differ. *)
Theorem mat4Perspective_near_far_planes (fovDeg aspect near far x y : R) :
  near <> far ->
  let P := mat4Perspective fovDeg aspect near far in
  let f := 1 / tan (fovDeg * PI / 180 / 2) in
  mat4MulVec P [x; y; - near; 1] = [f / aspect * x; f * y; - near; near]
  /\ mat4MulVec P [x; y; - far; 1] = [f / aspect * x; f * y; far; far].
Proof.
  intros Hnf. cbv zeta.
  split; cbn;
    repeat (apply (f_equal2 (@cons R)); [first [unfold Rdiv; ring | field; lra] |]);
    reflexivity.
Qed.

Lemma mat4Perspective_near_far_planes_witness :
  let near := 0.01 in
  let far := 100 in
  let f := 1 / tan (60 * PI / 180 / 2) in
  near <> far
  /\ mat4MulVec (mat4Perspective 60 1 near far) [0; 0; - near; 1]
     = [f / 1 * 0; f * 0; - near; near].
Proof.
  cbv zeta. split; [lra |].
  apply (mat4Perspective_near_far_planes 60 1 0.01 100 0 0). lra.
Defined.

End ProjectionFacts.

(** ** Camera: what the view-projection computes *)

Section ViewProjFacts.
Import Mat4.
Local Open Scope R_scope.

(** X7: in orthographic mode a world point (x, y, z) goes to the clip
    point obtained by moving it by -(cx, cy), turning it by -ang,
    scaling y by the (clamped) zoom and x by zoom / aspect; the camera
    depth cz enters the clip z only, and clip w is 1. *)
Theorem computeViewProj_ortho_formula (w : World) (x y z : R) :
  mode (st w) = ortho ->
  aspect_of (host w) <> 0 ->
  let s := st w in
  let zm := Rmax 0.001 (zoom s) in
  let xr := cos (ang s) * (x - cx s) + sin (ang s) * (y - cy s) in
  let yr := - sin (ang s) * (x - cx s) + cos (ang s) * (y - cy s) in
  mat4MulVec (computeViewProj w) [x; y; z; 1]
  = [zm / aspect_of (host w) * xr; zm * yr; (cz s - z) / 10; 1].
Proof.
  intros Hm Ha. cbv zeta.
  unfold computeViewProj, computeViewProj_PV. rewrite Hm.
  pose proof (halfH_divisor_pos (st w)) as Hd.
  unfold halfH_divisor in *.
  set (zm := Rmax 0.001 (zoom (st w))) in *.
  set (a := aspect_of (host w)) in *.
  cbn. rewrite cos_neg, sin_neg.
  repeat (apply (f_equal2 (@cons R)); [field; lra |]); reflexivity.
Qed.

Lemma computeViewProj_ortho_formula_witness :
  let w := world0 800 600 in
  mat4MulVec (computeViewProj w) [1; 1; 0; 1]
  = [Rmax 0.001 1 / aspect_of (host w) * (cos 0 * (1 - 0) + sin 0 * (1 - 0));
     Rmax 0.001 1 * (- sin 0 * (1 - 0) + cos 0 * (1 - 0));
     (3 - 0) / 10; 1].
Proof.
  apply (computeViewProj_ortho_formula (world0 800 600) 1 1 0).
  - reflexivity.
  - unfold aspect_of. cbn. lra.
Defined.

(** X8: in perspective mode the clip w of a world point is its depth
    cz - z in front of the camera, and clip x and y are the turned
    offsets from the camera scaled by f / aspect and f, where
    f = 1 / tan(fov / 2). *)
Theorem computeViewProj_persp_formula (w : World) (x y z : R) :
  mode (st w) = persp ->
  let s := st w in
  let f := 1 / tan (fovDeg s * PI / 180 / 2) in
  let xr := cos (ang s) * (x - cx s) + sin (ang s) * (y - cy s) in
  let yr := - sin (ang s) * (x - cx s) + cos (ang s) * (y - cy s) in
  exists zc,
    mat4MulVec (computeViewProj w) [x; y; z; 1]
    = [f / aspect_of (host w) * xr; f * yr; zc; cz s - z].
Proof.
  intros Hm. cbv zeta.
  unfold computeViewProj, computeViewProj_PV. rewrite Hm.
  cbn. rewrite cos_neg, sin_neg. eexists.
  apply (f_equal2 (@cons R)); [unfold Rdiv; ring |].
  apply (f_equal2 (@cons R)); [unfold Rdiv; ring |].
  apply (f_equal2 (@cons R)); [reflexivity |].
  apply (f_equal2 (@cons R)); [unfold Rdiv; ring | reflexivity].
Qed.

Lemma computeViewProj_persp_formula_witness :
  let w := mkWorld (set_mode persp state0) (host0 800 600) in
  exists zc,
    mat4MulVec (computeViewProj w) [1; 1; 0; 1]
    = [1 / tan (60 * PI / 180 / 2) / aspect_of (host w)
         * (cos 0 * (1 - 0) + sin 0 * (1 - 0));
       1 / tan (60 * PI / 180 / 2) * (- sin 0 * (1 - 0) + cos 0 * (1 - 0));
       zc; 3 - 0].
Proof.
  apply (computeViewProj_persp_formula
           (mkWorld (set_mode persp state0) (host0 800 600)) 1 1 0).
  reflexivity.
Defined.

End ViewProjFacts.

(** ** Reachable worlds *)

Section ReachableFacts.
Import Mat4.
Local Open Scope R_scope.

Lemma computeViewProj_ext (a b : World) :
  camera (st a) = camera (st b) ->
  canvas_width (host a) = canvas_width (host b) ->
  canvas_height (host a) = canvas_height (host b) ->
  computeViewProj a = computeViewProj b.
Proof.
  unfold camera. intros H Hw Hh.
  injection H as Hm Hx Hy Hz Ha Hzo Hf Hn Hfa.
  unfold computeViewProj, computeViewProj_PV, aspect_of, halfH_divisor.
  now rewrite Hm, Hx, Hy, Hz, Ha, Hzo, Hf, Hn, Hfa, Hw, Hh.
Qed.

Lemma viewProj_in_sync_ext (a b : World) :
  sync_view a = sync_view b -> viewProj_in_sync a -> viewProj_in_sync b.
Proof.
  unfold sync_view, viewProj_in_sync. intros H.
  apply pair_equal_spec in H as [H Hh].
  apply pair_equal_spec in H as [H Hw].
  apply pair_equal_spec in H as [H Hc].
  apply pair_equal_spec in H as [H Hg].
  apply pair_equal_spec in H as [Hu Hp].
  rewrite <- Hu, <- Hg, <- Hp, (computeViewProj_ext a b Hc Hw Hh). tauto.
Qed.

Lemma sync_view_markDirty (w : World) : sync_view (markDirty w) = sync_view w.
Proof.
  unfold markDirty. cbn. destruct (_raf (st w) =? 0)%Z; reflexivity.
Qed.

Lemma sync_view_frame (w : World) : sync_view (frame w) = sync_view w.
Proof. destruct (frame_cases w) as [(_ & ->) | (_ & _ & ->)]; reflexivity. Qed.

Lemma in_sync_ready (w : World) : viewProj_in_sync w -> upload_ready w.
Proof.
  unfold viewProj_in_sync, upload_ready.
  destruct (gl_program (host w)); tauto.
Qed.

Lemma uploadViewProj_in_sync (w : World) :
  upload_ready w -> viewProj_in_sync (uploadViewProj w).
Proof.
  unfold upload_ready, viewProj_in_sync, uploadViewProj. intros H.
  destruct (uniforms (st w)) eqn:E; destruct (gl_program (host w)) eqn:Ep.
  - unfold on_host. cbn [st host gl_program gl_uViewProj set_gl_uViewProj].
    rewrite Ep. split; [rewrite E; discriminate | reflexivity].
  - now rewrite Ep.
  - now destruct H.
  - exact H.
Qed.

Lemma markDirty_upload_in_sync (w : World) :
  upload_ready w -> viewProj_in_sync (markDirty (uploadViewProj w)).
Proof.
  intros H. eapply viewProj_in_sync_ext;
    [symmetry; apply sync_view_markDirty | now apply uploadViewProj_in_sync].
Qed.

Lemma initGL_in_sync (ok : bool) (w w' : World) :
  initGL ok w = Some w' -> viewProj_in_sync w'.
Proof.
  unfold initGL, initProgram. destruct ok; [| discriminate].
  intros [= <-]. apply markDirty_upload_in_sync.
  unfold upload_ready. cbn. discriminate.
Qed.

Lemma step_in_sync (w w' : World) (ev : Event) :
  step w ev = Some w' -> viewProj_in_sync w -> viewProj_in_sync w'.
Proof.
  intros Hs Hinv. pose proof (in_sync_ready w Hinv) as Hready.
  destruct ev as [c v | b | b | b | nw nh | ok | | ok |]; cbn [step] in Hs;
    try (injection Hs as <-).
  - apply markDirty_upload_in_sync. destruct c; exact Hready.
  - destruct b; [| exact Hinv]. apply markDirty_upload_in_sync. exact Hready.
  - destruct b; [| exact Hinv]. apply markDirty_upload_in_sync. exact Hready.
  - apply markDirty_upload_in_sync. exact Hready.
  - unfold resize, updateUIState.
    destruct (negb _ || negb _); [| exact Hinv].
    apply markDirty_upload_in_sync. exact Hready.
  - destruct (initGL ok w) eqn:E; cbn [default]; [| exact Hinv].
    eapply initGL_in_sync; eassumption.
  - unfold viewProj_in_sync. reflexivity.
  - unfold on_contextrestored.
    destruct (initGL ok w) eqn:E; cbn [default]; [| exact Hinv].
    eapply viewProj_in_sync_ext; [symmetry; apply sync_view_markDirty |].
    eapply initGL_in_sync; eassumption.
  - revert Hs. unfold run_animation_frame.
    destruct (raf_queue (host w)); [discriminate |]. intros [= <-].
    eapply viewProj_in_sync_ext; [symmetry; apply sync_view_frame | exact Hinv].
Qed.

(** X9: after any sequence of events, while a GL program is in use
    (initGL has succeeded and the context has not been lost since) the
    uniform uViewProj holds the view-projection of the current camera
    and canvas; while none is in use (before initGL, or from a context
    loss until the next successful initGL, when uploads have no effect)
    it holds nothing. *)
Theorem uploaded_viewProj_is_current (cw ch : Z) (evs : list Event) (w : World) :
  run evs (world0 cw ch) = Some w ->
  match gl_program (host w) with
  | Some _ =>
      uniforms (st w) <> None
      /\ gl_uViewProj (host w) = Some (computeViewProj w)
  | None => gl_uViewProj (host w) = None
  end.
Proof.
  intros Hrun. change (viewProj_in_sync w).
  assert (H0 : viewProj_in_sync (world0 cw ch)) by reflexivity.
  revert H0 Hrun. generalize (world0 cw ch) as w0. clear cw ch.
  induction evs as [| ev evs IH]; intros w0 H0; cbn [run].
  - now intros [= <-].
  - destruct (step w0 ev) as [w1 |] eqn:E; [| discriminate].
    apply IH. eapply step_in_sync; eassumption.
Qed.

Lemma uploaded_viewProj_is_current_witness :
  exists w,
    run [Input ZOOM 2; KickOff true; Resize 800 600; Input CX 0.5] (world0 300 150) = Some w
    /\ gl_uViewProj (host w) = Some (computeViewProj w).
Proof.
  eexists. split; [reflexivity |].
  exact (proj2 (uploaded_viewProj_is_current 300 150
           [Input ZOOM 2; KickOff true; Resize 800 600; Input CX 0.5] _ eq_refl)).
Defined.

End ReachableFacts.

(** ** The scheduler under every handler *)

Section SchedulerEverywhere.
Local Open Scope R_scope.

Lemma sched_view_inj (a b : World) :
  sched_view a = sched_view b ->
  _raf (st a) = _raf (st b) /\ _dirty (st a) = _dirty (st b)
  /\ raf_queue (host a) = raf_queue (host b)
  /\ render_passes (host a) = render_passes (host b).
Proof. unfold sched_view. intros [= -> -> -> ->]. repeat split. Qed.

Lemma raf_inv_ext (a b : World) : sched_view a = sched_view b -> raf_inv a -> raf_inv b.
Proof.
  intros H. apply sched_view_inj in H as (Hr & Hd & Hq & _).
  unfold raf_inv. rewrite Hr, Hd, Hq. tauto.
Qed.

Lemma stuck_ext (n : nat) (a b : World) :
  sched_view a = sched_view b -> stuck n a -> stuck n b.
Proof.
  intros H. apply sched_view_inj in H as (Hr & _ & Hq & Hp).
  unfold stuck. rewrite Hr, Hq, Hp. tauto.
Qed.

Lemma sched_view_uploadViewProj (w : World) :
  sched_view (uploadViewProj w) = sched_view w.
Proof. unfold uploadViewProj.
  destruct (uniforms (st w)); [destruct (gl_program (host w)) |]; reflexivity. Qed.

Lemma sched_view_apply (c : Control) (v : R) (w : World) :
  sched_view (on_st (apply_of c v) w) = sched_view w.
Proof. destruct c; reflexivity. Qed.

Lemma sched_view_initGeometry (w : World) :
  sched_view (initGeometry w) = sched_view w.
Proof. reflexivity. Qed.

Lemma raf_inv_markDirty (w : World) : raf_inv w -> raf_inv (markDirty w).
Proof.
  intros Hinv. destruct (Z.eq_dec (_raf (st w)) 0%Z) as [H0 | Hn].
  - destruct Hinv as [Hq | (Hn & _)]; [| contradiction].
    right. unfold markDirty. cbn. rewrite H0. cbn. rewrite Hq.
    repeat split. discriminate.
  - rewrite (markDirty_requested w Hn).
    destruct Hinv as [Hq | (_ & Hq & _)]; [left | right]; cbn; auto.
Qed.

Lemma stuck_markDirty (n : nat) (w : World) : stuck n w -> stuck n (markDirty w).
Proof.
  intros (Hn & Hq & Hp). rewrite (markDirty_requested w Hn). repeat split; assumption.
Qed.

Lemma markDirty_twice (w : World) : markDirty (markDirty w) = markDirty w.
Proof.
  destruct (Z.eq_dec (_raf (st w)) 0%Z) as [H0 | Hn].
  - unfold markDirty. cbn. rewrite H0. cbn. reflexivity.
  - rewrite (markDirty_requested w Hn).
    rewrite markDirty_requested by exact Hn. reflexivity.
Qed.

(** The part of every handler but the callback's: something that leaves
    the scheduler alone, then possibly [markDirty]. *)
Lemma step_shape (w w' : World) (ev : Event) :
  step w ev = Some w' ->
  ev = AnimationFrame
  \/ ev = ContextLost
  \/ exists w1, sched_view w1 = sched_view w /\ (w' = w1 \/ w' = markDirty w1).
Proof.
  destruct ev as [c v | b | b | b | nw nh | ok | | ok |]; cbn [step]; intros Hs;
    try (injection Hs as <-); auto; right; right.
  - exists (uploadViewProj (on_st (apply_of c v) w)). split; [| now right].
    now rewrite sched_view_uploadViewProj, sched_view_apply.
  - destruct b; [| exists w; auto].
    exists (uploadViewProj (on_st (set_mode ortho) w)). split; [| now right].
    now rewrite sched_view_uploadViewProj.
  - destruct b; [| exists w; auto].
    exists (uploadViewProj (on_st (set_mode persp) w)). split; [| now right].
    now rewrite sched_view_uploadViewProj.
  - eexists. split; [| right; reflexivity].
    now rewrite sched_view_uploadViewProj.
  - unfold resize, updateUIState.
    destruct (negb _ || negb _); [| exists w; auto].
    eexists. split; [| right; reflexivity].
    now rewrite sched_view_uploadViewProj.
  - unfold initGL, initProgram. destruct ok; cbn [default]; [| exists w; auto].
    eexists. split; [| right; reflexivity].
    now rewrite sched_view_uploadViewProj, sched_view_initGeometry.
  - unfold on_contextrestored, initGL, initProgram.
    destruct ok; cbn [default]; [| exists w; auto].
    rewrite markDirty_twice.
    eexists. split; [| right; reflexivity].
    now rewrite sched_view_uploadViewProj, sched_view_initGeometry.
Qed.

Lemma contextlost_scheduler (w : World) :
  st (on_contextlost w) = st w
  /\ raf_queue (host (on_contextlost w))
     = List.filter (fun h => negb (h =? _raf (st w))%Z) (raf_queue (host w))
  /\ render_passes (host (on_contextlost w)) = render_passes (host w).
Proof. repeat split. Qed.

Lemma step_raf_inv (w w' : World) (ev : Event) :
  step w ev = Some w' -> raf_inv w -> raf_inv w'.
Proof.
  intros Hs Hinv.
  destruct (step_shape _ _ _ Hs) as [-> | [-> | (w1 & Hv & [-> | ->])]].
  - revert Hs. cbn. unfold run_animation_frame.
    destruct Hinv as [-> | (_ & -> & Hd)]; [discriminate |].
    intros [= <-]. left.
    match goal with |- context [frame ?x] =>
      destruct (frame_cases x) as [(_ & ->) | (_ & _ & ->)] end; reflexivity.
  - injection Hs as <-. left.
    destruct (contextlost_scheduler w) as (_ & -> & _).
    destruct Hinv as [-> | (_ & -> & _)]; cbn; [reflexivity |].
    now rewrite Z.eqb_refl.
  - eapply raf_inv_ext; [symmetry; exact Hv | exact Hinv].
  - apply raf_inv_markDirty.
    eapply raf_inv_ext; [symmetry; exact Hv | exact Hinv].
Qed.

Lemma run_raf_inv (evs : list Event) (w w' : World) :
  run evs w = Some w' -> raf_inv w -> raf_inv w'.
Proof.
  revert w. induction evs as [| ev evs IH]; intros w; cbn [run].
  - now intros [= <-].
  - destruct (step w ev) as [w1 |] eqn:E; [| discriminate].
    intros Hrun Hw. apply (IH w1 Hrun). eapply step_raf_inv; eassumption.
Qed.

Lemma raf_inv_world0 (cw ch : Z) : raf_inv (world0 cw ch).
Proof. now left. Qed.

(** X10: whatever handlers run, from the initial state at most one
    callback is requested at a time, it is the one whose handle _raf
    holds, and the dirty flag is set while it is requested; its delivery
    clears the handle and leaves nothing requested, and it does exactly
    one render pass and clears the dirty flag when render can run (the
    uniform locations and the circle and point descriptors are there),
    while otherwise render throws, no pass is counted and the flag stays
    set. *)
Theorem redraws_coalesced_under_all_handlers (cw ch : Z) (evs : list Event) (w : World) :
  run evs (world0 cw ch) = Some w ->
  (length (raf_queue (host w)) <= 1)%nat
  /\ (raf_queue (host w) <> [] ->
      raf_queue (host w) = [_raf (st w)] /\ _raf (st w) <> 0%Z
      /\ _dirty (st w) = true)
  /\ (forall w', step w AnimationFrame = Some w' ->
        _raf (st w') = 0%Z
        /\ raf_queue (host w') = []
        /\ (can_render w ->
            render_passes (host w') = S (render_passes (host w))
            /\ _dirty (st w') = false)
        /\ (~ can_render w ->
            render_passes (host w') = render_passes (host w)
            /\ _dirty (st w') = true)).
Proof.
  intros Hrun.
  pose proof (run_raf_inv _ _ _ Hrun (raf_inv_world0 cw ch)) as Hinv.
  split; [| split].
  - destruct Hinv as [-> | (_ & -> & _)]; cbn; lia.
  - intros Hne. destruct Hinv as [Hq | (Hn & Hq & Hd)]; [contradiction | auto].
  - intros w' Hs. cbn [step] in Hs.
    destruct Hinv as [Hq | Hinv].
    + unfold run_animation_frame in Hs. rewrite Hq in Hs. discriminate.
    + apply frame_delivered; [right; exact Hinv | exact Hs].
Qed.

Lemma redraws_coalesced_under_all_handlers_witness :
  exists w,
    run [Input CX 1; KickOff true; Resize 800 600; AnimationFrame; ResetClick true]
        (world0 300 150) = Some w
    /\ (length (raf_queue (host w)) <= 1)%nat
    /\ render_passes (host w) = 1%nat.
Proof.
  eexists. split; [vm_compute; reflexivity |]. split; [| vm_compute; reflexivity].
  refine (proj1 (redraws_coalesced_under_all_handlers 300 150
                   [Input CX 1; KickOff true; Resize 800 600; AnimationFrame;
                    ResetClick true] _ _)).
  vm_compute. reflexivity.
Defined.

Lemma step_stuck (n : nat) (w w' : World) (ev : Event) :
  step w ev = Some w' -> stuck n w -> stuck n w' /\ ev <> AnimationFrame.
Proof.
  intros Hs Hst.
  destruct (step_shape _ _ _ Hs) as [-> | [-> | (w1 & Hv & Hw')]].
  - exfalso. revert Hs. cbn. unfold run_animation_frame.
    destruct Hst as (_ & -> & _). discriminate.
  - injection Hs as <-. split; [| discriminate].
    destruct Hst as (Hn & Hq & Hp). unfold stuck, on_contextlost. cbn.
    rewrite Hq. cbn. auto.
  - assert (Hne : ev <> AnimationFrame).
    { intros ->. revert Hs. cbn. unfold run_animation_frame.
      destruct Hst as (_ & -> & _). discriminate. }
    split; [| exact Hne].
    assert (H1 : stuck n w1) by (eapply stuck_ext; [symmetry; exact Hv | exact Hst]).
    destruct Hw' as [-> | ->]; [exact H1 | now apply stuck_markDirty].
Qed.

Lemma run_stuck (n : nat) (evs : list Event) (w w' : World) :
  run evs w = Some w' -> stuck n w -> stuck n w' /\ ~ In AnimationFrame evs.
Proof.
  revert w. induction evs as [| ev evs IH]; intros w; cbn [run].
  - intros [= <-] H. split; [exact H | intros []].
  - destruct (step w ev) as [w1 |] eqn:E; [| discriminate].
    intros Hrun Hw. destruct (step_stuck _ _ _ _ E Hw) as [H1 Hne].
    destruct (IH w1 Hrun H1) as [H2 Hni].
    split; [exact H2 |]. intros [Heq | Hin]; [now apply Hne | now apply Hni].
Qed.

(** X11: when the GL context is lost while a redraw is requested, the
    handler cancels the callback but keeps its handle in _raf; from then
    on markDirty requests nothing, so whatever events follow (context
    restored included) no callback is delivered and no render pass is
    done. *)
Theorem no_redraw_after_contextlost_while_pending
    (cw ch : Z) (evs evs' : list Event) (w w' : World) :
  run evs (world0 cw ch) = Some w ->
  _raf (st w) <> 0%Z ->
  run evs' (on_contextlost w) = Some w' ->
  render_passes (host w') = render_passes (host w)
  /\ raf_queue (host w') = []
  /\ raf_queue (host (markDirty w')) = []
  /\ ~ In AnimationFrame evs'.
Proof.
  intros Hrun Hn Hrun'.
  pose proof (run_raf_inv _ _ _ Hrun (raf_inv_world0 cw ch)) as Hinv.
  assert (Hst : stuck (render_passes (host w)) (on_contextlost w)).
  { unfold stuck, on_contextlost. cbn. split; [exact Hn |]. split; [| reflexivity].
    destruct Hinv as [-> | (_ & -> & _)]; cbn; [reflexivity |].
    now rewrite Z.eqb_refl. }
  destruct (run_stuck _ _ _ _ Hrun' Hst) as [(Hn' & Hq & Hp) Hni].
  repeat split; try assumption.
  rewrite (markDirty_requested w' Hn'). exact Hq.
Qed.

Lemma no_redraw_after_contextlost_while_pending_witness :
  exists w w',
    run [Input CX 1] (world0 300 150) = Some w
    /\ run [ContextRestored true; Input CX 2; Resize 800 600] (on_contextlost w) = Some w'
    /\ render_passes (host w') = 0%nat
    /\ raf_queue (host w') = [].
Proof.
  eexists. eexists. split; [reflexivity |]. split; [reflexivity |].
  destruct (no_redraw_after_contextlost_while_pending 300 150
              [Input CX 1] [ContextRestored true; Input CX 2; Resize 800 600]
              _ _ eq_refl ltac:(discriminate) eq_refl) as (Hp & Hq & _).
  split; [exact Hp | exact Hq].
Defined.

(** X12: markDirty is idempotent, so any number of calls in a row
    requests what one call requests. *)
Theorem markDirty_idempotent (n : nat) (w : World) :
  Nat.iter (S n) markDirty w = markDirty w.
Proof.
  induction n as [| n IH]; [reflexivity |].
  change (markDirty (Nat.iter (S n) markDirty w) = markDirty w).
  rewrite IH. apply markDirty_twice.
Qed.


End SchedulerEverywhere.

(** ** Reachable camera states, reset and resize *)

Section MoreHandlerFacts.
Import Mat4.
Local Open Scope R_scope.

Lemma step_near_far (w w' : World) (ev : Event) :
  step w ev = Some w' -> near (st w') = near (st w) /\ far (st w') = far (st w).
Proof.
  assert (Hcam : forall a b : State, camera a = camera b ->
                   near a = near b /\ far a = far b).
  { unfold camera. intros a b H. injection H as _ _ _ _ _ _ _ -> ->. auto. }
  destruct ev as [c v | b | b | b | nw nh | ok | | ok |]; cbn [step]; intros Hs;
    try (injection Hs as <-).
  - destruct (Hcam _ _ (camera_bindControl_push (apply_of c) v w)) as [-> ->].
    destruct c; auto.
  - destruct (Hcam _ _ (camera_modeOrtho_change b w)) as [-> ->]. destruct b; auto.
  - destruct (Hcam _ _ (camera_modePersp_change b w)) as [-> ->]. destruct b; auto.
  - pose proof (camera_reset_click b w) as H. unfold camera in H.
    injection H as _ _ _ _ _ _ _ -> ->. auto.
  - apply Hcam, camera_resize.
  - destruct (initGL ok w) eqn:E; cbn [default]; [| auto].
    apply Hcam. eapply camera_initGL; eassumption.
  - auto.
  - unfold on_contextrestored.
    destruct (initGL ok w) eqn:E; cbn [default]; [| auto].
    destruct (Hcam _ _ (camera_markDirty w0)) as [H1 H2].
    destruct (Hcam _ _ (camera_initGL _ _ _ E)) as [H3 H4].
    split; [exact (eq_trans H1 H3) | exact (eq_trans H2 H4)].
  - apply Hcam. now apply camera_run_animation_frame.
Qed.

Lemma run_near_far (evs : list Event) (w w' : World) :
  run evs w = Some w' -> near (st w') = near (st w) /\ far (st w') = far (st w).
Proof.
  revert w. induction evs as [| ev evs IH]; intros w; cbn [run].
  - intros [= <-]. auto.
  - destruct (step w ev) as [w1 |] eqn:E; [| discriminate].
    intros Hrun. destruct (IH w1 Hrun) as [-> ->]. eapply step_near_far; eassumption.
Qed.

(** X13: no handler writes near or far, and the field of view stays in
    [1, 179]; so in every state the program reaches the two divisors of
    mat4Perspective, tan(fov/2) and near - far, are non-zero (the first
    positive, the second -99.99). *)
Theorem perspective_divisors_nonzero (cw ch : Z) (evs : list Event) (w : World) :
  run evs (world0 cw ch) = Some w ->
  near (st w) = 0.01 /\ far (st w) = 100
  /\ near (st w) - far (st w) = -99.99
  /\ 1 <= fovDeg (st w) <= 179
  /\ 0 < tan (fovDeg (st w) * PI / 180 / 2).
Proof.
  intros Hrun.
  destruct (run_near_far _ _ _ Hrun) as [Hn Hf]. cbn in Hn, Hf.
  pose proof (run_camera_inv _ _ _ Hrun (camera_inv_world0 cw ch)) as (_ & Hfov & _).
  rewrite Hn, Hf. repeat split; try lra.
  pose proof PI_RGT_0 as Hpi. apply tan_gt_0; nra.
Qed.

Lemma perspective_divisors_nonzero_witness :
  exists w,
    run [Input FOV 500; ModePerspChange true] (world0 300 150) = Some w
    /\ 0 < tan (fovDeg (st w) * PI / 180 / 2).
Proof.
  eexists. split; [reflexivity |].
  exact (proj2 (proj2 (proj2 (proj2
           (perspective_divisors_nonzero 300 150
              [Input FOV 500; ModePerspChange true] _ eq_refl))))).
Defined.

(** X14: the field-of-view control stores its input when it lies in
    [1, 179], 1 when it is below and 179 when it is above. *)
Theorem fov_input_clamped (v : R) (w : World) :
  let w' := bindControl_push apply_fov v w in
  1 <= fovDeg (st w') <= 179
  /\ (1 <= v <= 179 -> fovDeg (st w') = v)
  /\ (v <= 1 -> fovDeg (st w') = 1)
  /\ (179 <= v -> fovDeg (st w') = 179).
Proof.
  cbv zeta.
  pose proof (camera_bindControl_push apply_fov v w) as H. unfold camera in H.
  injection H as _ _ _ _ _ _ -> _ _. cbn. unfold clamp.
  repeat split.
  - apply Rmin_glb; [lra | apply Rmax_l].
  - apply Rmin_l.
  - intros [H1 H2]. rewrite (Rmax_right 1 v H1). now apply Rmin_right.
  - intros H1. rewrite (Rmax_left 1 v H1). apply Rmin_right. lra.
  - intros H1. apply Rmin_left. apply Rle_trans with v; [exact H1 | apply Rmax_r].
Qed.

(** X15: in every state the program reaches, reset puts the camera back
    to its initial values, with the mode of the checked radio button. *)
Theorem reset_restores_initial_camera (cw ch : Z) (evs : list Event) (w : World) (b : bool) :
  run evs (world0 cw ch) = Some w ->
  camera (st (reset_click b w))
  = camera (set_mode (if b then ortho else persp) state0).
Proof.
  intros Hrun. destruct (run_near_far _ _ _ Hrun) as [Hn Hf]. cbn in Hn, Hf.
  rewrite camera_reset_click, Hn, Hf. unfold camera. cbn.
  repeat (apply pair_equal_spec; split); try reflexivity; lra.
Qed.

Lemma reset_restores_initial_camera_witness :
  exists w,
    run [Input CX 0.5; Input ANGLE 90; Input ZOOM 4; ModePerspChange true]
        (world0 300 150) = Some w
    /\ camera (st (reset_click true w)) = camera state0.
Proof.
  eexists. split; [reflexivity |].
  exact (reset_restores_initial_camera 300 150
           [Input CX 0.5; Input ANGLE 90; Input ZOOM 4; ModePerspChange true]
           _ true eq_refl).
Defined.

Lemma canvas_markDirty (w : World) :
  canvas_width (host (markDirty w)) = canvas_width (host w)
  /\ canvas_height (host (markDirty w)) = canvas_height (host w).
Proof.
  unfold markDirty. cbn. destruct (_raf (st w) =? 0)%Z; split; reflexivity.
Qed.

Lemma canvas_uploadViewProj (w : World) :
  canvas_width (host (uploadViewProj w)) = canvas_width (host w)
  /\ canvas_height (host (uploadViewProj w)) = canvas_height (host w).
Proof.
  unfold uploadViewProj.
  destruct (uniforms (st w)); [destruct (gl_program (host w)) |]; split; reflexivity.
Qed.

(** X16: resize leaves the canvas at the size it is given, does nothing
    at all when the canvas already has that size, and marks the state
    dirty when the size changes. *)
Theorem resize_sets_size_once (nw nh : Z) (w : World) :
  canvas_width (host (resize nw nh w)) = nw
  /\ canvas_height (host (resize nw nh w)) = nh
  /\ (canvas_width (host w) = nw -> canvas_height (host w) = nh -> resize nw nh w = w)
  /\ resize nw nh (resize nw nh w) = resize nw nh w
  /\ ((canvas_width (host w) <> nw \/ canvas_height (host w) <> nh) ->
      _dirty (st (resize nw nh w)) = true).
Proof.
  assert (Hsame : forall w0, canvas_width (host w0) = nw ->
                    canvas_height (host w0) = nh -> resize nw nh w0 = w0).
  { intros w0 Hw Hh. unfold resize, updateUIState.
    now rewrite Hw, Hh, !Z.eqb_refl. }
  assert (Hsize : canvas_width (host (resize nw nh w)) = nw
                  /\ canvas_height (host (resize nw nh w)) = nh).
  { unfold resize, updateUIState.
    destruct (Z.eqb_spec (canvas_width (host w)) nw) as [Hw | Hw];
      destruct (Z.eqb_spec (canvas_height (host w)) nh) as [Hh | Hh]; cbn [negb orb];
      try (destruct (canvas_markDirty
                       (uploadViewProj (on_host (set_canvas nw nh) w))) as [-> ->];
           destruct (canvas_uploadViewProj (on_host (set_canvas nw nh) w)) as [-> ->];
           split; reflexivity).
    split; assumption. }
  destruct Hsize as [H1 H2].
  split; [exact H1 |]. split; [exact H2 |]. split; [apply Hsame |].
  split; [now apply Hsame |].
  intros Hne. unfold resize, updateUIState.
  destruct (Z.eqb_spec (canvas_width (host w)) nw) as [Hw | Hw];
    destruct (Z.eqb_spec (canvas_height (host w)) nh) as [Hh | Hh]; cbn [negb orb];
    try (unfold markDirty; cbn;
         match goal with |- context [(?x =? 0)%Z] => destruct (x =? 0)%Z end;
         reflexivity).
  tauto.
Qed.

End MoreHandlerFacts.

(** ** Scene helpers and polygon *)

Section SceneFacts.
Import Mat4.
Local Open Scope R_scope.

(** X17: whatever Math.random returns, within_orbit gives a point of
    the circle of radius orbit_size around the origin, the same point
    for u and u + 1; and the ring matrix mat4TRS(0,0,0, 0, P,P,P) sends
    every vertex of the unit polygon to a point of the circle of radius
    P in the plane z = 0. *)
Theorem within_orbit_radius (P u : R) (segments i : nat) :
  let '(px, py) := within_orbit P u in
  px * px + py * py = P * P
  /\ within_orbit P (u + 1) = within_orbit P u
  /\ (let '(vx, vy) := polygon_vertex segments i in
      exists rx ry,
        mat4MulVec (mat4TRS 0 0 0 0 P P P) [vx; vy; 0; 1] = [rx; ry; 0; 1]
        /\ rx * rx + ry * ry = P * P).
Proof.
  unfold within_orbit. cbv zeta.
  split; [| split].
  - pose proof (sin2_cos2 (u * 2 * PI)) as H. unfold Rsqr in H. nra.
  - replace ((u + 1) * 2 * PI) with (u * 2 * PI + 2 * PI) by ring.
    rewrite cos_plus, sin_plus, cos_2PI, sin_2PI.
    f_equal; ring.
  - unfold polygon_vertex.
    exists (P * cos (polygon_angle segments i)), (P * sin (polygon_angle segments i)).
    split.
    + cbn. rewrite cos_0, sin_0. ring_entries.
    + pose proof (sin2_cos2 (polygon_angle segments i)) as H. unfold Rsqr in H. nra.
Qed.

(** X18: for random values in [0, 1) and min < max, random_points gives
    a point of the square [min, max) x [min, max). *)
Theorem random_points_in_square (min max u1 u2 : R) :
  min < max -> 0 <= u1 < 1 -> 0 <= u2 < 1 ->
  let '(x, y) := random_points min max u1 u2 in
  min <= x < max /\ min <= y < max.
Proof.
  intros Hm H1 H2. unfold random_points. cbv zeta. nra.
Qed.

Lemma random_points_in_square_witness :
  let '(x, y) := random_points (-4) 4 0.25 0.75 in
  -4 <= x < 4 /\ -4 <= y < 4.
Proof.
  apply (random_points_in_square (-4) 4 0.25 0.75); lra.
Defined.

(** X19: clamp(v, lo, hi) with lo <= hi lies in [lo, hi], is v itself
    when v lies there, and is idempotent; with lo > hi it is hi. *)
Theorem clamp_range (v lo hi : R) :
  (lo <= hi -> lo <= clamp v lo hi <= hi)
  /\ (lo <= v <= hi -> clamp v lo hi = v)
  /\ (lo <= hi -> clamp (clamp v lo hi) lo hi = clamp v lo hi)
  /\ (hi < lo -> clamp v lo hi = hi).
Proof.
  unfold clamp, Rmin, Rmax.
  repeat split; intros; repeat destruct (Rle_dec _ _); lra.
Qed.

Lemma polygon_vertex_dist2 (n i j : nat) :
  dist2 (polygon_vertex n i) (polygon_vertex n j)
  = 2 - 2 * cos (polygon_angle n j - polygon_angle n i).
Proof.
  unfold dist2, polygon_vertex. cbn [fst snd]. rewrite cos_minus.
  pose proof (sin2_cos2 (polygon_angle n i)) as Hi.
  pose proof (sin2_cos2 (polygon_angle n j)) as Hj.
  unfold Rsqr in Hi, Hj. nra.
Qed.

(** X21: the polygon is equilateral: for segments >= 1 the side from
    vertex i to the next vertex, the last one going back to vertex 0 as
    a line loop does, has squared length 2 - 2 cos(2 pi / segments),
    whatever i. *)
Theorem polygon_sides_equal (segments i : nat) (p q : R * R) :
  (i < segments)%nat ->
  vertices (makePolygonVAO_verts segments) !! i = Some p ->
  vertices (makePolygonVAO_verts segments) !! ((i + 1) mod segments)%nat = Some q ->
  dist2 p q = 2 - 2 * cos (2 * PI / INR segments).
Proof.
  intros Hi Hp Hq.
  assert (Hn : INR segments <> 0) by (apply not_0_INR; lia).
  rewrite polygon_vertices, list_lookup_fmap in Hp, Hq.
  rewrite lookup_seq_lt in Hp by exact Hi.
  rewrite lookup_seq_lt in Hq by (apply Nat.mod_upper_bound; lia).
  cbn in Hp, Hq. injection Hp as <-. injection Hq as <-.
  rewrite polygon_vertex_dist2. f_equal. f_equal.
  destruct (Nat.eq_dec (i + 1)%nat segments) as [Heq | Hne].
  - rewrite Heq, Nat.Div0.mod_same. unfold polygon_angle. cbn [INR].
    assert (Hi1 : INR i = INR segments - 1).
    { rewrite <- Heq, plus_INR. cbn. ring. }
    rewrite Hi1.
    replace (0 / INR segments * PI * 2 - (INR segments - 1) / INR segments * PI * 2)
      with (- (2 * PI - 2 * PI / INR segments)) by (field; exact Hn).
    rewrite cos_neg, cos_minus, cos_2PI, sin_2PI. ring.
  - rewrite Nat.mod_small by lia. unfold polygon_angle.
    rewrite plus_INR. cbn [INR]. f_equal. field. exact Hn.
Qed.

Lemma polygon_sides_equal_witness :
  exists p q,
    vertices (makePolygonVAO_verts 4) !! 3%nat = Some p
    /\ vertices (makePolygonVAO_verts 4) !! 0%nat = Some q
    /\ dist2 p q = 2 - 2 * cos (2 * PI / INR 4).
Proof.
  eexists. eexists. split; [reflexivity |]. split; [reflexivity |].
  apply (polygon_sides_equal 4 3); [lia | reflexivity | reflexivity].
Defined.

End SceneFacts.

(** ** Geometry cache *)

Section GeoCacheFacts.
Local Open Scope R_scope.

Lemma geo_inv_ext (a b : World) : geo_view a = geo_view b -> geo_inv a -> geo_inv b.
Proof.
  unfold geo_view, geo_inv, geo_named, geo_ok, geo_ready. intros [= Hg Ha Hu].
  now rewrite Hg, Ha, Hu.
Qed.

Lemma geo_view_markDirty (w : World) : geo_view (markDirty w) = geo_view w.
Proof. unfold markDirty. cbn. destruct (_raf (st w) =? 0)%Z; reflexivity. Qed.

Lemma geo_view_uploadViewProj (w : World) : geo_view (uploadViewProj w) = geo_view w.
Proof.
  unfold uploadViewProj.
  destruct (uniforms (st w)); [destruct (gl_program (host w)) |]; reflexivity.
Qed.

Lemma geo_view_frame (w : World) : geo_view (frame w) = geo_view w.
Proof. destruct (frame_cases w) as [(_ & ->) | (_ & _ & ->)]; reflexivity. Qed.

Lemma geo_view_apply (c : Control) (v : R) (w : World) :
  geo_view (on_st (apply_of c v) w) = geo_view w.
Proof. destruct c; reflexivity. Qed.

Lemma geo_ok_on_assign (name : string) (verts : list R) (names : list string) (w : World) :
  geo_ok_on names w -> geo_ok_on (name :: names) (geo_assign name (makeVAO verts) w).
Proof.
  unfold geo_ok_on, geo_assign, makeVAO.
  cbn [st host geo set_geo gl_vertex_arrays set_gl_vertex_arrays].
  intros Hok name' d' Hin. destruct (decide (name = name')) as [<- | Hne].
  - rewrite lookup_insert_eq. intros [= <-]. cbn [vao count].
    exists verts. split; [| field].
    rewrite lookup_app_r by lia. now rewrite Nat.sub_diag.
  - rewrite lookup_insert_ne by exact Hne. intros Hd.
    destruct Hin as [Heq | Hin]; [contradiction |].
    destruct (Hok _ _ Hin Hd) as (data & Hdata & Hcount).
    exists data. split; [| exact Hcount].
    rewrite lookup_app_l; [exact Hdata |]. now apply lookup_lt_Some in Hdata.
Qed.

Lemma geo_named_assign (name : string) (verts : list R) (w : World) :
  In name geo_names -> geo_named w -> geo_named (geo_assign name (makeVAO verts) w).
Proof.
  unfold geo_named, geo_assign, makeVAO. cbn [st geo set_geo].
  intros Hin Hn name' d'. destruct (decide (name = name')) as [<- | Hne].
  - intros _. exact Hin.
  - rewrite lookup_insert_ne by exact Hne. apply Hn.
Qed.

Lemma geo_named_initGeometry (w : World) : geo_named w -> geo_named (initGeometry w).
Proof.
  intros H. unfold initGeometry, makePolygonVAO.
  repeat (apply geo_named_assign; [unfold geo_names; cbn; tauto |]). exact H.
Qed.

(** After [initGeometry] no descriptor dangles, whatever was cached
    before: every name is assigned anew. *)
Lemma geo_ok_initGeometry (w : World) : geo_named w -> geo_ok (initGeometry w).
Proof.
  intros Hn.
  assert (Hon : geo_ok_on ["hexagon"; "circle"; "square"; "tri"; "line"; "point"]
                  (initGeometry w)).
  { unfold initGeometry, makePolygonVAO. do 6 apply geo_ok_on_assign.
    intros name d []. }
  intros name d Hd. apply (Hon name d); [| exact Hd].
  apply (geo_named_initGeometry w Hn) in Hd. unfold geo_names in Hd. cbn in Hd |- *.
  tauto.
Qed.

Lemma initGeometry_arrays (w : World) : gl_vertex_arrays (host (initGeometry w)) <> [].
Proof.
  unfold initGeometry, geo_assign, makePolygonVAO, makeVAO.
  cbn [host gl_vertex_arrays set_gl_vertex_arrays].
  intros H. apply (f_equal (@length _)) in H. rewrite !length_app in H. cbn in H. lia.
Qed.

Lemma geo_ready_initGeometry (w : World) : geo_ready (initGeometry w).
Proof.
  pose proof (makePolygonVAO_verts_length 96) as H96.
  unfold geo_ready, initGeometry, geo_assign, makePolygonVAO, makeVAO.
  cbn [st host geo set_geo fst snd]. split.
  - eexists. rewrite lookup_insert_ne by discriminate.
    rewrite lookup_insert_eq. split; [reflexivity |]. cbn [count].
    rewrite H96. change (2 * 96)%nat with 192%nat.
    replace (INR 192) with 192; [lra |].
    change 192 with (IZR (Z.of_nat 192)). now rewrite <- INR_IZR_INZ.
  - eexists. do 5 (rewrite lookup_insert_ne by discriminate).
    rewrite lookup_insert_eq. split; [reflexivity |]. cbn. lra.
Qed.

Lemma initGL_geo_inv (ok : bool) (w w' : World) :
  initGL ok w = Some w' -> geo_inv w -> geo_inv w'.
Proof.
  unfold initGL, initProgram. destruct ok; [| discriminate].
  intros [= <-] (Hn & _ & _).
  eapply geo_inv_ext; [symmetry; apply geo_view_markDirty |].
  eapply geo_inv_ext; [symmetry; apply geo_view_uploadViewProj |].
  split; [apply geo_named_initGeometry; exact Hn |].
  split; [intros _; apply geo_ok_initGeometry; exact Hn |].
  intros _. apply geo_ready_initGeometry.
Qed.

Lemma step_geo_inv (w w' : World) (ev : Event) :
  step w ev = Some w' -> geo_inv w -> geo_inv w'.
Proof.
  intros Hs Hinv.
  assert (Hmu : forall w1, geo_view w1 = geo_view w ->
                  geo_inv (markDirty (uploadViewProj w1))).
  { intros w1 Hv. eapply geo_inv_ext; [| exact Hinv].
    now rewrite geo_view_markDirty, geo_view_uploadViewProj. }
  destruct ev as [c v | b | b | b | nw nh | ok | | ok |]; cbn [step] in Hs;
    try (injection Hs as <-).
  - apply Hmu, geo_view_apply.
  - destruct b; [apply Hmu; reflexivity | exact Hinv].
  - destruct b; [apply Hmu; reflexivity | exact Hinv].
  - apply Hmu. reflexivity.
  - unfold resize, updateUIState.
    destruct (negb _ || negb _); [apply Hmu; reflexivity | exact Hinv].
  - destruct (initGL ok w) eqn:E; cbn [default]; [| exact Hinv].
    eapply initGL_geo_inv; eassumption.
  - destruct Hinv as (Hn & _ & Hr).
    split; [exact Hn |]. split; [| exact Hr].
    intros H. now destruct H.
  - unfold on_contextrestored.
    destruct (initGL ok w) eqn:E; cbn [default]; [| exact Hinv].
    eapply geo_inv_ext; [symmetry; apply geo_view_markDirty |].
    eapply initGL_geo_inv; eassumption.
  - revert Hs. unfold run_animation_frame.
    destruct (raf_queue (host w)); [discriminate |]. intros [= <-].
    eapply geo_inv_ext; [symmetry; apply geo_view_frame | exact Hinv].
Qed.

(** X22: in every state the program reaches, while the GL context holds
    any vertex array (initGL has succeeded and the context has not been
    lost since) each descriptor stored in state.geo names an existing
    vertex array whose buffer holds exactly count vertices (two floats
    each); a context loss empties the context and leaves the descriptors
    dangling until initGL runs again.  Once state.uniforms is set the
    circle descriptor (96 vertices) and the point descriptor (1 vertex)
    are there, so that render can run exactly when state.uniforms is
    set. *)
Theorem geometry_cache_valid (cw ch : Z) (evs : list Event) (w : World) :
  run evs (world0 cw ch) = Some w ->
  (gl_vertex_arrays (host w) <> [] ->
   forall name d, geo (st w) !! name = Some d ->
     exists data, gl_vertex_arrays (host w) !! vao d = Some data
                  /\ count d * 2 = INR (length data))
  /\ gl_vertex_arrays (host (on_contextlost w)) = []
  /\ (uniforms (st w) <> None ->
      (exists d, geo (st w) !! "circle" = Some d /\ count d = 96)
      /\ (exists d, geo (st w) !! "point" = Some d /\ count d = 1))
  /\ (can_render w <-> uniforms (st w) <> None).
Proof.
  intros Hrun.
  assert (Hinv : geo_inv w).
  { assert (H0 : geo_inv (world0 cw ch)).
    { split; [| split].
      - intros name d H. cbn in H. now rewrite lookup_empty in H.
      - intros H. now destruct H.
      - intros H. now destruct H. }
    revert H0 Hrun. generalize (world0 cw ch) as w0. clear cw ch.
    induction evs as [| ev evs IH]; intros w0 H0; cbn [run].
    - now intros [= <-].
    - destruct (step w0 ev) as [w1 |] eqn:E; [| discriminate].
      apply IH. eapply step_geo_inv; eassumption. }
  destruct Hinv as (_ & Hok & Hr).
  split; [exact Hok |]. split; [reflexivity |]. split; [exact Hr |].
  unfold can_render. split; [tauto |].
  intros Hu. destruct (Hr Hu) as [(c & Hc & _) (p & Hp & _)].
  rewrite Hc, Hp. repeat split; [exact Hu | eexists; reflexivity ..].
Qed.

Lemma geometry_cache_valid_witness :
  exists w,
    run [KickOff true; Input CX 1] (world0 300 150) = Some w
    /\ exists d, geo (st w) !! "circle" = Some d /\ count d = 96.
Proof.
  eexists. split; [reflexivity |].
  refine (proj1 (proj1 (proj2 (proj2
            (geometry_cache_valid 300 150 [KickOff true; Input CX 1] _ eq_refl))) _)).
  discriminate.
Defined.

End GeoCacheFacts.
